(** * MyPW: the vault's cryptographic envelope, shallowly embedded

    A model of [mypw.py]: key derivation ([derive_key]), the vault codec
    ([encrypt_data], [decrypt_data]), the store ([save_vault], [load_vault],
    the [MyPW] entry operations) and the password generator.

    Python values are modelled as the script has them: [bytes] as lists of
    [Byte.byte], [str] as lists of Unicode code points, dictionaries as
    insertion-ordered association lists, exceptions as values of an error
    monad threaded through a [world] that carries the operating system's
    entropy, the clock, the file system and the console.

    Library code the script calls is modelled at its interface.  The
    [base64] module, [str.encode], HMAC and PBKDF2 are written out; SHA-256,
    the Fernet token primitives, [json] and the Unicode lower-casing of
    non-ASCII characters are fields of a record [Libs], constrained only by
    the documented contracts collected in [LibsOk]. *)

From Stdlib Require Import NArith ZArith List Bool Lia.
From Stdlib.Strings Require Import String Ascii Byte.
From stdpp Require Import gmap strings list.

Open Scope N_scope.

(* ===================================================================== *)
(** * Bytes *)
(* ===================================================================== *)

Abbreviation bytes := (list byte).

(** Truncation of a C [unsigned char] store: the low eight bits. *)
Definition byte_of_N (n : N) : byte :=
  match Byte.of_N (n mod 256) with
  | Some b => b
  | None => x00
  end.

Definition all_bytes : bytes := map (fun n => byte_of_N (N.of_nat n)) (seq 0 256).

Definition bytes_of_string (s : string) : bytes := list_byte_of_string s.

#[global] Instance byte_eq_dec : EqDecision byte.
Proof.
  intros a b. destruct (Byte.eqb a b) eqn:E.
  - left. now apply Byte.byte_dec_bl.
  - right. now apply Byte.eqb_false.
Defined.

(** Bytewise exclusive or of two byte strings (the shorter one decides the
    length, as [zip] does). *)
Definition xor_byte (a b : byte) : byte :=
  byte_of_N (N.lxor (Byte.to_N a) (Byte.to_N b)).

Fixpoint xor_bytes (a b : bytes) : bytes :=
  match a, b with
  | x :: a', y :: b' => xor_byte x y :: xor_bytes a' b'
  | _, _ => []
  end.

(* ===================================================================== *)
(** * The [base64] module

    [base64.b64encode] is [binascii.b2a_base64] without the newline;
    [base64.b64decode] with [validate=False] is [binascii.a2b_base64] in
    its lenient mode.  Both are written out after the C loops. *)
(* ===================================================================== *)

Module Base64.

Definition alphabet : bytes :=
  bytes_of_string "ABCDEFGHIJKLMNOPQRSTUVWXYZabcdefghijklmnopqrstuvwxyz0123456789+/".

Definition PAD : byte := x3d.

(** [table_b2a_base64]: the character of a six-bit value. *)
Definition b2a (v : N) : byte := nth (N.to_nat v) alphabet x41.

Fixpoint index_of (c : byte) (l : bytes) (i : N) : option N :=
  match l with
  | [] => None
  | x :: r => if Byte.eqb x c then Some i else index_of c r (N.succ i)
  end.

(** [table_a2b_base64]: the six-bit value of a character, [None] for a
    character outside the alphabet. *)
Definition a2b (c : byte) : option N := index_of c alphabet 0.

(** The four characters of three input bytes. *)
Definition enc3 (a b c : byte) : bytes :=
  let x := Byte.to_N a in
  let y := Byte.to_N b in
  let z := Byte.to_N c in
  [ b2a (N.shiftr x 2);
    b2a (N.lor (N.shiftl (N.land x 3) 4) (N.shiftr y 4));
    b2a (N.lor (N.shiftl (N.land y 15) 2) (N.shiftr z 6));
    b2a (N.land z 63) ].

Definition enc2 (a b : byte) : bytes :=
  let x := Byte.to_N a in
  let y := Byte.to_N b in
  [ b2a (N.shiftr x 2);
    b2a (N.lor (N.shiftl (N.land x 3) 4) (N.shiftr y 4));
    b2a (N.shiftl (N.land y 15) 2);
    PAD ].

Definition enc1 (a : byte) : bytes :=
  let x := Byte.to_N a in
  [ b2a (N.shiftr x 2); b2a (N.shiftl (N.land x 3) 4); PAD; PAD ].

Fixpoint b64encode (s : bytes) : bytes :=
  match s with
  | [] => []
  | [a] => enc1 a
  | [a; b] => enc2 a b
  | a :: b :: c :: rest => enc3 a b c ++ b64encode rest
  end.

(** The decoding loop of [binascii.a2b_base64], lenient mode.  The state is
    the position in the current group of four ([quad_pos]), the bits left
    over from the previous character ([leftchar]) and the number of pad
    characters seen in a row ([pads]).  Characters outside the alphabet are
    skipped; a pad sequence that completes a group ends the decoding, and
    whatever follows it is ignored.  [None] is [binascii.Error]. *)
Fixpoint a2b_loop (s : bytes) (quad_pos leftchar pads : N) (out : bytes) : option bytes :=
  match s with
  | [] => if N.eqb quad_pos 0 then Some out else None
  | this_ch :: s' =>
      if Byte.eqb this_ch PAD then
        if N.leb 2 quad_pos then
          if N.leb 4 (quad_pos + (pads + 1)) then Some out
          else a2b_loop s' quad_pos leftchar (pads + 1) out
        else a2b_loop s' quad_pos leftchar pads out
      else
        match a2b this_ch with
        | None => a2b_loop s' quad_pos leftchar pads out
        | Some v =>
            match quad_pos with
            | 0 => a2b_loop s' 1 v 0 out
            | 1 => a2b_loop s' 2 (N.land v 15) 0
                     (out ++ [byte_of_N (N.lor (N.shiftl leftchar 2) (N.shiftr v 4))])
            | 2 => a2b_loop s' 3 (N.land v 3) 0
                     (out ++ [byte_of_N (N.lor (N.shiftl leftchar 4) (N.shiftr v 2))])
            | _ => a2b_loop s' 0 0 0
                     (out ++ [byte_of_N (N.lor (N.shiftl leftchar 6) v)])
            end
        end
  end.

Definition b64decode (s : bytes) : option bytes := a2b_loop s 0 0 0 [].

(** [_urlsafe_encode_translation]: [+] becomes [-], [/] becomes [_]. *)
Definition urlsafe_encode_char (c : byte) : byte :=
  if Byte.eqb c x2b then x2d else if Byte.eqb c x2f then x5f else c.

(** [_urlsafe_decode_translation]: [-] becomes [+], [_] becomes [/]. *)
Definition urlsafe_decode_char (c : byte) : byte :=
  if Byte.eqb c x2d then x2b else if Byte.eqb c x5f then x2f else c.

Definition urlsafe_b64encode (s : bytes) : bytes :=
  map urlsafe_encode_char (b64encode s).

Definition urlsafe_b64decode (s : bytes) : option bytes :=
  b64decode (map urlsafe_decode_char s).

End Base64.


(* ===================================================================== *)
(** * Python values *)
(* ===================================================================== *)

(** A [str] is a sequence of Unicode code points. *)
Definition pystr := list N.

Definition str_of (s : string) : pystr := map Byte.to_N (list_byte_of_string s).

(** The values [json.loads] can return and [json.dumps] accepts.  A [dict]
    keeps its keys in insertion order, which is the order [json.dumps]
    writes them in. *)
#[warnings="-register-all"]
Inductive pyvalue :=
| PNone
| PBool (b : bool)
| PInt (z : Z)
| PFloat (bits : N)
| PStr (s : pystr)
| PList (l : list pyvalue)
| PDict (d : list (pystr * pyvalue)).

Definition pystr_eqb (a b : pystr) : bool := bool_decide (a = b).

Fixpoint dict_get (k : pystr) (d : list (pystr * pyvalue)) : option pyvalue :=
  match d with
  | [] => None
  | (k', v) :: d' => if pystr_eqb k' k then Some v else dict_get k d'
  end.

(** [d[k] = v]: an existing key keeps its place, a new key goes last. *)
Fixpoint dict_set (k : pystr) (v : pyvalue) (d : list (pystr * pyvalue))
  : list (pystr * pyvalue) :=
  match d with
  | [] => [(k, v)]
  | (k', v') :: d' =>
      if pystr_eqb k' k then (k', v) :: d' else (k', v') :: dict_set k v d'
  end.

Fixpoint dict_del (k : pystr) (d : list (pystr * pyvalue)) : list (pystr * pyvalue) :=
  match d with
  | [] => []
  | (k', v') :: d' => if pystr_eqb k' k then d' else (k', v') :: dict_del k d'
  end.

(** Truth value of an object, as [not entry] tests it. *)
Definition truthy (v : pyvalue) : bool :=
  match v with
  | PNone => false
  | PBool b => b
  | PInt z => negb (Z.eqb z 0)
  | PFloat bits => negb (N.eqb (N.land bits 0x7FFFFFFFFFFFFFFF) 0)
  | PStr s => negb (bool_decide (s = []))
  | PList l => match l with [] => false | _ => true end
  | PDict d => match d with [] => false | _ => true end
  end.

(** ** [str.encode()]: UTF-8, strict *)

Definition utf8_char (c : N) : option bytes :=
  if c <? 0x80 then Some [byte_of_N c]
  else if c <? 0x800 then
    Some [byte_of_N (N.lor 0xC0 (N.shiftr c 6));
          byte_of_N (N.lor 0x80 (N.land c 0x3F))]
  else if (0xD800 <=? c) && (c <=? 0xDFFF) then None
  else if c <? 0x10000 then
    Some [byte_of_N (N.lor 0xE0 (N.shiftr c 12));
          byte_of_N (N.lor 0x80 (N.land (N.shiftr c 6) 0x3F));
          byte_of_N (N.lor 0x80 (N.land c 0x3F))]
  else if c <? 0x110000 then
    Some [byte_of_N (N.lor 0xF0 (N.shiftr c 18));
          byte_of_N (N.lor 0x80 (N.land (N.shiftr c 12) 0x3F));
          byte_of_N (N.lor 0x80 (N.land (N.shiftr c 6) 0x3F));
          byte_of_N (N.lor 0x80 (N.land c 0x3F))]
  else None.

(** [None] is [UnicodeEncodeError] (a lone surrogate). *)
Fixpoint str_encode (s : pystr) : option bytes :=
  match s with
  | [] => Some []
  | c :: s' =>
      match utf8_char c, str_encode s' with
      | Some b, Some r => Some (b ++ r)
      | _, _ => None
      end
  end.

(** ** [str.lower()] *)

Definition ascii_lower (c : N) : N :=
  if (65 <=? c) && (c <=? 90) then c + 32 else c.

Definition is_ascii (s : pystr) : bool := forallb (fun c => c <? 128) s.

(* ===================================================================== *)
(** * HMAC and PBKDF2 over a hash function

    [PBKDF2HMAC(algorithm=SHA256, length, salt, iterations).derive] is
    PBKDF2 (RFC 8018) with HMAC (RFC 2104) as its pseudorandom function.
    The hash itself is a parameter [H]; its block size is 64 bytes and its
    output 32 bytes. *)
(* ===================================================================== *)

Module KDF.

Definition BLOCK_SIZE : nat := 64.
Definition DIGEST_SIZE : nat := 32.

(** The key block of HMAC: a key longer than one block is hashed first,
    and the result is padded with zero bytes to the block size. *)
Definition hmac_key_block (H : bytes -> bytes) (key : bytes) : bytes :=
  let k := if Nat.ltb BLOCK_SIZE (length key) then H key else key in
  k ++ repeat x00 (BLOCK_SIZE - length k)%nat.

Definition hmac_with_block (H : bytes -> bytes) (k0 : bytes) (msg : bytes) : bytes :=
  H (xor_bytes k0 (repeat x5c BLOCK_SIZE)
       ++ H (xor_bytes k0 (repeat x36 BLOCK_SIZE) ++ msg)).

Definition hmac (H : bytes -> bytes) (key msg : bytes) : bytes :=
  hmac_with_block H (hmac_key_block H key) msg.

(** [INT(i)]: the block index as four bytes, most significant first. *)
Definition int32be (i : N) : bytes :=
  [ byte_of_N (N.shiftr i 24); byte_of_N (N.shiftr i 16);
    byte_of_N (N.shiftr i 8); byte_of_N i ].

(** One PBKDF2 block: [U1 xor U2 xor ... xor Uc]. *)
Definition pbkdf2_block (prf : bytes -> bytes) (salt : bytes) (c : N) (i : N) : bytes :=
  let u1 := prf (salt ++ int32be i) in
  snd (N.iter (c - 1)
         (fun ut : bytes * bytes =>
            let u := prf (fst ut) in (u, xor_bytes (snd ut) u))
         (u1, u1)).

Definition pbkdf2_hmac (H : bytes -> bytes) (password salt : bytes)
  (iterations : N) (dklen : nat) : bytes :=
  let blocks := ((dklen + DIGEST_SIZE - 1) / DIGEST_SIZE)%nat in
  take dklen
    (flat_map (fun i => pbkdf2_block (hmac H password) salt iterations (N.of_nat (S i)))
       (seq 0 blocks)).

End KDF.

(* ===================================================================== *)
(** * Exceptions, the world, and the monad of Python computations *)
(* ===================================================================== *)

Inductive exn :=
| UnicodeEncodeError
| BinasciiError
| ValueError
| InvalidToken
| JSONDecodeError
| KeyError
| TypeError
| AttributeError
| KeyboardInterrupt
| SystemExit.

(** Membership in the class [Exception]: what [except Exception] catches. *)
Definition is_Exception (e : exn) : bool :=
  match e with
  | KeyboardInterrupt | SystemExit => false
  | _ => true
  end.

Inductive result (A : Type) :=
| Ok (a : A)
| Raise (e : exn).
Arguments Ok {A} a.
Arguments Raise {A} e.

(** Everything outside the process that the script reads or changes. *)
Record world := World {
  entropy : nat -> byte;          (* the bytes the system's random source delivers, in order *)
  drawn : nat;                    (* how many of them have been delivered *)
  clock : N;                      (* [int(time.time())] *)
  files : gmap string bytes;      (* the file system *)
  console : list pystr;           (* what [console.print] has shown *)
  clipboard : pystr
}.

Definition set_drawn (n : nat) (w : world) : world :=
  World (entropy w) n (clock w) (files w) (console w) (clipboard w).
Definition set_clock (t : N) (w : world) : world :=
  World (entropy w) (drawn w) t (files w) (console w) (clipboard w).
Definition set_files (fs : gmap string bytes) (w : world) : world :=
  World (entropy w) (drawn w) (clock w) fs (console w) (clipboard w).
Definition set_console (c : list pystr) (w : world) : world :=
  World (entropy w) (drawn w) (clock w) (files w) c (clipboard w).
Definition set_clipboard (c : pystr) (w : world) : world :=
  World (entropy w) (drawn w) (clock w) (files w) (console w) c.

Definition M (A : Type) : Type := world -> result A * world.

Definition ret {A} (a : A) : M A := fun w => (Ok a, w).
Definition raise {A} (e : exn) : M A := fun w => (Raise e, w).
Definition bind {A B} (c : M A) (k : A -> M B) : M B :=
  fun w =>
    match c w with
    | (Ok a, w') => k a w'
    | (Raise e, w') => (Raise e, w')
    end.
Definition lift {A} (r : result A) : M A := fun w => (r, w).

Notation "x <-- c ;; k" := (bind c (fun x => k))
  (at level 100, c at next level, right associativity).
Notation "c ;;; k" := (bind c (fun _ => k))
  (at level 100, right associativity).

(** [try: body except Exception as e: handler]. *)
Definition try_except_Exception {A} (body : M A) (handler : exn -> M A) : M A :=
  fun w =>
    match body w with
    | (Ok a, w') => (Ok a, w')
    | (Raise e, w') => if is_Exception e then handler e w' else (Raise e, w')
    end.

(** [os.urandom(n)]. *)
Definition os_urandom (n : nat) : M bytes :=
  fun w => (Ok (map (entropy w) (seq (drawn w) n)), set_drawn (drawn w + n)%nat w).

(** [secrets.choice(seq)]: an element of [seq] picked by the system's
    random source.  The library draws an index below [len(seq)]; here the
    next entropy byte, reduced modulo the length, is that index. *)
Definition secrets_choice (alphabet : pystr) : M N :=
  fun w =>
    let r := N.to_nat (Byte.to_N (entropy w (drawn w))) in
    (Ok (nth (r mod length alphabet)%nat alphabet 0), set_drawn (S (drawn w)) w).

Definition time_time : M N := fun w => (Ok (clock w), w).
Definition time_sleep (seconds : N) : M unit :=
  fun w => (Ok tt, set_clock (clock w + seconds) w).

Definition console_print (msg : pystr) : M unit :=
  fun w => (Ok tt, set_console (console w ++ [msg]) w).

Definition pyperclip_copy (text : pystr) : M unit :=
  fun w => (Ok tt, set_clipboard text w).

(** ** Files

    [with open(path, "wb") as f: f.write(data)] is three actions on the
    file system: opening for writing empties the file (or creates it
    empty), writing appends to it, closing leaves it as it is. *)

Inductive fs_action :=
| FsOpenWB (path : string)
| FsWrite (path : string) (data : bytes)
| FsClose (path : string)
| FsRename (src dst : string)
| FsRemove (path : string).

Definition fs_step (fs : gmap string bytes) (a : fs_action) : gmap string bytes :=
  match a with
  | FsOpenWB p => <[p := []]> fs
  | FsWrite p data => <[p := default [] (fs !! p) ++ data]> fs
  | FsClose p => fs
  | FsRename src dst =>
      match fs !! src with
      | Some data => <[dst := data]> (delete src fs)
      | None => fs
      end
  | FsRemove p => delete p fs
  end.

Definition fs_run (acts : list fs_action) (fs : gmap string bytes) : gmap string bytes :=
  fold_left fs_step acts fs.

Definition write_file_actions (path : string) (data : bytes) : list fs_action :=
  [FsOpenWB path; FsWrite path data; FsClose path].

Definition run_actions (acts : list fs_action) : M unit :=
  fun w => (Ok tt, set_files (fs_run acts (files w)) w).

Definition os_path_exists (path : string) : M bool :=
  fun w => (Ok (bool_decide (is_Some (files w !! path))), w).

Definition read_file (path : string) : M bytes :=
  fun w => (Ok (default [] (files w !! path)), w).

(** ** Operations on objects *)

(** [v[k]] *)
Definition getitem (v : pyvalue) (k : pystr) : result pyvalue :=
  match v with
  | PDict d => match dict_get k d with Some x => Ok x | None => Raise KeyError end
  | _ => Raise TypeError
  end.

(** [v[k] = x] *)
Definition setitem (v : pyvalue) (k : pystr) (x : pyvalue) : result pyvalue :=
  match v with
  | PDict d => Ok (PDict (dict_set k x d))
  | _ => Raise TypeError
  end.

(** [del v[k]] *)
Definition delitem (v : pyvalue) (k : pystr) : result pyvalue :=
  match v with
  | PDict d =>
      match dict_get k d with
      | Some _ => Ok (PDict (dict_del k d))
      | None => Raise KeyError
      end
  | _ => Raise TypeError
  end.

(** [v.get(k)] *)
Definition dict_get_method (v : pyvalue) (k : pystr) : result pyvalue :=
  match v with
  | PDict d => Ok (default PNone (dict_get k d))
  | _ => Raise AttributeError
  end.

Fixpoint starts_with (k s : pystr) : bool :=
  match k, s with
  | [], _ => true
  | a :: k', b :: s' => (a =? b) && starts_with k' s'
  | _ :: _, [] => false
  end.

Fixpoint str_contains (k s : pystr) : bool :=
  starts_with k s || match s with [] => false | _ :: s' => str_contains k s' end.

(** [k in v] for a string [k] *)
Definition contains (k : pystr) (v : pyvalue) : result bool :=
  match v with
  | PDict d => Ok (bool_decide (is_Some (dict_get k d)))
  | PList l =>
      Ok (existsb (fun x => match x with PStr s => pystr_eqb s k | _ => false end) l)
  | PStr s => Ok (str_contains k s)
  | _ => Raise TypeError
  end.

(* ===================================================================== *)
(** * The libraries behind the script *)
(* ===================================================================== *)

(** What the script uses of [cryptography], [json] and [str] without
    defining it.  A Fernet object is represented by the 32 key bytes its
    constructor decoded; [fernet_encrypt_from_parts key time iv data] is
    [Fernet._encrypt_from_parts], [fernet_decrypt key token] is
    [Fernet.decrypt] with [None] for [InvalidToken]; [json_loads] returns
    [None] for [JSONDecodeError]; [unicode_lower] is [str.lower] on a
    string that is not pure ASCII. *)
Record Libs := {
  sha256 : bytes -> bytes;
  fernet_encrypt_from_parts : bytes -> N -> bytes -> bytes -> bytes;
  fernet_decrypt : bytes -> bytes -> option bytes;
  json_dumps : pyvalue -> pystr;
  json_loads : bytes -> option pyvalue;
  unicode_lower : pystr -> pystr
}.

(** The contracts the proofs rely on: SHA-256 digests have 32 bytes; a
    token made under a key decrypts under that key to the data it was made
    from; [json.dumps] (with its default [ensure_ascii=True]) writes ASCII
    only. *)
Record LibsOk (L : Libs) : Prop := {
  sha256_length : forall m, length (sha256 L m) = 32%nat;
  fernet_roundtrip : forall key t iv data,
    length key = 32%nat ->
    fernet_decrypt L key (fernet_encrypt_from_parts L key t iv data) = Some data;
  json_dumps_ascii : forall v, is_ascii (json_dumps L v) = true
}.

(** [json.loads(json.dumps(v).encode())] gives [v] back. *)
Definition json_roundtrips (L : Libs) (v : pyvalue) : Prop :=
  exists text, str_encode (json_dumps L v) = Some text /\ json_loads L text = Some v.

(* ===================================================================== *)
(** * mypw.py *)
(* ===================================================================== *)

Definition VAULT_PATH : string := "~/.mypw_vault.enc".
Definition SALT_SIZE : nat := 16.
Definition KDF_ITERATIONS : N := 480000.

Definition DECRYPTION_FAILED : pystr :=
  str_of "[bold red]Error: Decryption failed. Incorrect master password or corrupt vault.[/bold red]".

Definition EMPTY_ALPHABET : pystr :=
  str_of "[bold red]Cannot generate password with no character types selected.[/bold red]".

Definition ADD_HEADER : pystr :=
  [10] ++ str_of "[bold underline cyan]Add New Entry[/bold underline cyan]".

(** The check mark U+2713 that opens the success messages. *)
Definition CHECK_MARK : pystr := [0x2713].

Definition ascii_uppercase : pystr := str_of "ABCDEFGHIJKLMNOPQRSTUVWXYZ".
Definition ascii_lowercase : pystr := str_of "abcdefghijklmnopqrstuvwxyz".
Definition digits : pystr := str_of "0123456789".
(** [string.punctuation]: the 32 ASCII punctuation characters, in code
    point order. *)
Definition punctuation : pystr :=
  map N.of_nat (seq 33 15 ++ seq 58 7 ++ seq 91 6 ++ seq 123 4).

Definition empty_vault : pyvalue := PDict [(str_of "accounts", PDict [])].

(** The text of an object inside an f-string. *)
Definition format_value (v : pyvalue) : pystr :=
  match v with
  | PStr s => s
  | PNone => str_of "None"
  | _ => str_of "<object>"
  end.

(** A value that must be text to be shown or copied. *)
Definition as_str (v : pyvalue) : result pystr :=
  match v with
  | PStr s => Ok s
  | _ => Raise TypeError
  end.

Fixpoint repeatM {A} (n : nat) (c : M A) : M (list A) :=
  match n with
  | O => ret []
  | S n' => x <-- c ;; xs <-- repeatM n' c ;; ret (x :: xs)
  end.

(** The answers the user gives to the prompts of [add_entry] and of
    [initialize_vault] ([Prompt.ask], [Confirm.ask], [getpass.getpass]). *)
Record add_answers := {
  ans_service : pystr;
  ans_overwrite : bool;
  ans_username : pystr;
  ans_generate : bool;
  ans_password : pystr
}.

Record init_answers := {
  ans_master : pystr;
  ans_confirm : pystr
}.

(** A [MyPW] object after [login]. *)
Record MyPW := {
  master_password : pystr;
  vault_data : pyvalue
}.

Section Program.
Context (L : Libs).

Definition str_lower (s : pystr) : pystr :=
  if is_ascii s then map ascii_lower s else unicode_lower L s.

(** ** Core cryptography functions *)

Definition derive_key (password : pystr) (salt : bytes) : M bytes :=
  pw <-- lift (match str_encode password with
               | Some b => Ok b
               | None => Raise UnicodeEncodeError
               end) ;;
  ret (Base64.urlsafe_b64encode
         (KDF.pbkdf2_hmac (sha256 L) pw salt KDF_ITERATIONS 32)).

(** [Fernet(key)]: the key must be the url-safe base64 text of 32 bytes. *)
Definition Fernet (key : bytes) : M bytes :=
  match Base64.urlsafe_b64decode key with
  | Some raw => if Nat.eqb (length raw) 32 then ret raw else raise ValueError
  | None => raise ValueError
  end.

(** [f.encrypt(data)]: the current time, a fresh 16-byte IV, then the
    token. *)
Definition Fernet_encrypt (f : bytes) (data : bytes) : M bytes :=
  current_time <-- time_time ;;
  iv <-- os_urandom 16 ;;
  ret (fernet_encrypt_from_parts L f current_time iv data).

Definition Fernet_decrypt (f : bytes) (token : bytes) : M bytes :=
  lift (match fernet_decrypt L f token with
        | Some data => Ok data
        | None => Raise InvalidToken
        end).

Definition b64decode_py (s : bytes) : M bytes :=
  lift (match Base64.b64decode s with
        | Some b => Ok b
        | None => Raise BinasciiError
        end).

Definition str_encode_py (s : pystr) : M bytes :=
  lift (match str_encode s with
        | Some b => Ok b
        | None => Raise UnicodeEncodeError
        end).

Definition json_loads_py (data : bytes) : M pyvalue :=
  lift (match json_loads L data with
        | Some v => Ok v
        | None => Raise JSONDecodeError
        end).

Definition encrypt_data (data : pyvalue) (password : pystr) : M bytes :=
  salt <-- os_urandom SALT_SIZE ;;
  key <-- derive_key password salt ;;
  f <-- Fernet key ;;
  plaintext <-- str_encode_py (json_dumps L data) ;;
  encrypted_data <-- Fernet_encrypt f plaintext ;;
  ret (Base64.b64encode (salt ++ encrypted_data)).

Definition decrypt_data (encrypted_blob : bytes) (password : pystr) : M pyvalue :=
  try_except_Exception
    (decoded_blob <-- b64decode_py encrypted_blob ;;
     let salt := take SALT_SIZE decoded_blob in
     let encrypted_data := drop SALT_SIZE decoded_blob in
     key <-- derive_key password salt ;;
     f <-- Fernet key ;;
     decrypted_data <-- Fernet_decrypt f encrypted_data ;;
     json_loads_py decrypted_data)
    (fun e => console_print DECRYPTION_FAILED ;;; ret PNone).

(** ** Vault management *)

Definition initialize_vault (a : init_answers) : M unit :=
  present <-- os_path_exists VAULT_PATH ;;
  if (present : bool) then
    console_print
      (str_of "[bold yellow]Warning:[/bold yellow] Vault already exists. Aborting initialization.")
  else
    console_print (str_of "[bold cyan]Welcome to MyPW Setup[/bold cyan]" ++ [10]
                   ++ str_of "Let's create your secure vault.") ;;;
    if negb (pystr_eqb (ans_master a) (ans_confirm a)) then
      console_print (str_of "[bold red]Error: Passwords do not match.[/bold red]")
    else if bool_decide (ans_master a = []) then
      console_print (str_of "[bold red]Error: Master password cannot be empty.[/bold red]")
    else
      encrypted_vault <-- encrypt_data empty_vault (ans_master a) ;;
      run_actions (write_file_actions VAULT_PATH encrypted_vault) ;;;
      console_print (str_of "[bold green]" ++ CHECK_MARK
                     ++ str_of " Vault initialized successfully at:[/bold green] "
                     ++ str_of VAULT_PATH).

Definition load_vault (password : pystr) : M pyvalue :=
  present <-- os_path_exists VAULT_PATH ;;
  if (present : bool) then
    encrypted_blob <-- read_file VAULT_PATH ;;
    decrypt_data encrypted_blob password
  else
    console_print
      (str_of "[bold red]Error:[/bold red] Vault not found. Please run `pw init` first.") ;;;
    ret PNone.

Definition save_vault (data : pyvalue) (password : pystr) : M unit :=
  encrypted_vault <-- encrypt_data data password ;;
  run_actions (write_file_actions VAULT_PATH encrypted_vault).

(** The file system as a crash would leave it when [save_vault] is
    interrupted after [k] of its file actions. *)
Definition save_vault_interrupted (k : nat) (data : pyvalue) (password : pystr)
  (w : world) : gmap string bytes :=
  match encrypt_data data password w with
  | (Ok encrypted_vault, w') =>
      fs_run (take k (write_file_actions VAULT_PATH encrypted_vault)) (files w')
  | (Raise _, w') => files w'
  end.

(** ** The application class *)

Definition generate_password (length : Z)
  (include_symbols include_uppercase include_lowercase include_numbers : bool)
  : M pyvalue :=
  let alphabet :=
    (if include_uppercase then ascii_uppercase else [])
    ++ (if include_lowercase then ascii_lowercase else [])
    ++ (if include_numbers then digits else [])
    ++ (if include_symbols then punctuation else []) in
  if bool_decide (alphabet = []) then
    console_print EMPTY_ALPHABET ;;;
    ret PNone
  else
    chars <-- repeatM (Z.to_nat length) (secrets_choice alphabet) ;;
    ret (PStr chars).

Definition new_entry (username : pystr) (password : pyvalue) : pyvalue :=
  PDict [(str_of "username", PStr username); (str_of "password", password)].

Definition add_entry (a : add_answers) (self : MyPW) : M MyPW :=
  console_print ADD_HEADER ;;;
  let service := ans_service a in
  accounts <-- lift (getitem (vault_data self) (str_of "accounts")) ;;
  present <-- lift (contains (str_lower service) accounts) ;;
  if (present : bool) && negb (ans_overwrite a) then
    console_print (str_of "[dim]Operation cancelled.[/dim]") ;;;
    ret self
  else
    let username := ans_username a in
    password <-- (if ans_generate a then
                    password <-- generate_password 20 true true true true ;;
                    console_print (str_of "Generated password: [bold green]"
                                   ++ format_value password ++ str_of "[/bold green]") ;;;
                    ret password
                  else ret (PStr (ans_password a))) ;;
    accounts <-- lift (getitem (vault_data self) (str_of "accounts")) ;;
    accounts' <-- lift (setitem accounts (str_lower service) (new_entry username password)) ;;
    vault' <-- lift (setitem (vault_data self) (str_of "accounts") accounts') ;;
    save_vault vault' (master_password self) ;;;
    console_print (str_of "[bold green]" ++ CHECK_MARK ++ str_of " Entry for '"
                   ++ service ++ str_of "' added successfully.[/bold green]") ;;;
    ret {| master_password := master_password self; vault_data := vault' |}.

(** The entry [get_entry] finds: [self.vault_data['accounts'].get(service_name.lower())]. *)
Definition lookup_entry (self : MyPW) (service_name : pystr) : result pyvalue :=
  match getitem (vault_data self) (str_of "accounts") with
  | Ok accounts => dict_get_method accounts (str_lower service_name)
  | Raise e => Raise e
  end.

(** [f"{i:2d}"] for a number below 100. *)
Definition two_digits (i : nat) : pystr :=
  if Nat.ltb i 10 then [32; N.of_nat (48 + i)]
  else [N.of_nat (48 + i / 10); N.of_nat (48 + i mod 10)].

Definition COPIED (i : nat) : pystr :=
  str_of "[green]Password copied to clipboard. It will be cleared in "
  ++ two_digits i ++ str_of " seconds.[/green]".

(** [for i in range(n, 0, -1): time.sleep(1); print(...)] *)
Fixpoint countdown (n : nat) : M unit :=
  match n with
  | O => ret tt
  | S n' =>
      time_sleep 1 ;;;
      console_print ([13] ++ COPIED n) ;;;
      countdown n'
  end.

Definition get_entry (copy : bool) (self : MyPW) (service_name : pystr) : M unit :=
  entry <-- lift (lookup_entry self service_name) ;;
  if negb (truthy entry) then
    console_print (str_of "[bold red]Error:[/bold red] No entry found for '"
                   ++ service_name ++ str_of "'.")
  else
    username <-- lift (match getitem entry (str_of "username") with
                       | Ok v => as_str v
                       | Raise e => Raise e
                       end) ;;
    console_print (str_of "Details for '" ++ service_name ++ str_of "' Username "
                   ++ username ++ str_of " Password ********") ;;;
    if copy then
      password <-- lift (match getitem entry (str_of "password") with
                         | Ok v => as_str v
                         | Raise e => Raise e
                         end) ;;
      pyperclip_copy password ;;;
      console_print (COPIED 15) ;;;
      countdown 15 ;;;
      pyperclip_copy [] ;;;
      console_print ([13] ++ str_of "[bold yellow]Clipboard cleared.                                              [/bold yellow]")
    else ret tt.

Definition delete_entry (confirm : bool) (self : MyPW) (service_name : pystr) : M MyPW :=
  accounts <-- lift (getitem (vault_data self) (str_of "accounts")) ;;
  present <-- lift (contains (str_lower service_name) accounts) ;;
  if negb present then
    console_print (str_of "[bold red]Error:[/bold red] No entry found for '"
                   ++ service_name ++ str_of "'.") ;;;
    ret self
  else if confirm then
    accounts' <-- lift (delitem accounts (str_lower service_name)) ;;
    vault' <-- lift (setitem (vault_data self) (str_of "accounts") accounts') ;;
    save_vault vault' (master_password self) ;;;
    console_print (str_of "[bold green]" ++ CHECK_MARK ++ str_of " Entry for '"
                   ++ service_name ++ str_of "' deleted.[/bold green]") ;;;
    ret {| master_password := master_password self; vault_data := vault' |}
  else
    console_print (str_of "[dim]Operation cancelled.[/dim]") ;;;
    ret self.

End Program.

(* ===================================================================== *)
(** * A small instance of the libraries

    Stand-ins with the shape of the real libraries, small enough to reason
    about in closed form; they show that the contracts of [LibsOk] can be
    met together and serve as the concrete instance where a statement is
    evaluated.  The hash passes the first block of a first-round message
    through and maps later rounds to zero, so that PBKDF2 over it is the
    padded password; a token is the key followed by the data. *)
(* ===================================================================== *)

Module Toy.

Definition toy_sha256 (m : bytes) : bytes :=
  take 32
    ((if Nat.eqb (length m) 84 then m
      else if bool_decide (m !! 63%nat = Some x5c) then drop 64 m
      else [])
     ++ repeat x00 32).

Definition toy_encrypt (key : bytes) (t : N) (iv data : bytes) : bytes :=
  key ++ data.

Definition toy_decrypt (key token : bytes) : option bytes :=
  if bool_decide (take (length key) token = key)
  then Some (drop (length key) token)
  else None.

Fixpoint join (sep : pystr) (l : list pystr) : pystr :=
  match l with
  | [] => []
  | [x] => x
  | x :: r => x ++ sep ++ join sep r
  end.

Definition quote (s : pystr) : pystr := [34] ++ s ++ [34].

Fixpoint render (v : pyvalue) : pystr :=
  match v with
  | PNone => str_of "null"
  | PBool b => if b then str_of "true" else str_of "false"
  | PInt _ => str_of "0"
  | PFloat _ => str_of "0.0"
  | PStr s => quote s
  | PList l => str_of "[" ++ join (str_of ", ") (map render l) ++ str_of "]"
  | PDict d =>
      str_of "{"
      ++ join (str_of ", ")
           (map (fun kv => quote (fst kv) ++ str_of ": " ++ render (snd kv)) d)
      ++ str_of "}"
  end.

Definition toy_dumps (v : pyvalue) : pystr :=
  map (fun c => if c <? 128 then c else 63) (render v).

Definition example_vault : pyvalue :=
  PDict [(str_of "accounts",
          PDict [(str_of "example",
                  new_entry (str_of "me@example.com") (PStr (str_of "xYz1!")))])].

(** The documents the stand-in parser knows. *)
Definition documents : list pyvalue := [empty_vault; example_vault].

Definition toy_loads (text : bytes) : option pyvalue :=
  find (fun v => bool_decide (str_encode (toy_dumps v) = Some text)) documents.

Definition libs : Libs := {|
  sha256 := toy_sha256;
  fernet_encrypt_from_parts := toy_encrypt;
  fernet_decrypt := toy_decrypt;
  json_dumps := toy_dumps;
  json_loads := toy_loads;
  unicode_lower := fun s => s
|}.

(** A world whose random source counts 0, 1, 2, ... and whose disk is
    empty. *)
Definition world0 : world :=
  World (fun i => byte_of_N (N.of_nat i)) 0 1700000000 ∅ [] [].

Definition hunter2 : pystr := str_of "hunter2".
Definition hunter3 : pystr := str_of "hunter3".
(** "hunter2" followed by the character U+0000. *)
Definition hunter2_nul : pystr := str_of "hunter2" ++ [0].

(** The same world with a vault already on disk. *)
Definition previous_vault : bytes := bytes_of_string "previous vault".
Definition world1 : world := set_files {[ VAULT_PATH := previous_vault ]} world0.

(** A logged-in application holding the empty vault, and what the user
    answers when adding an entry for GitHub with a password of their own. *)
Definition app0 : MyPW := {| master_password := hunter2; vault_data := empty_vault |}.
Definition github_answers : add_answers := {|
  ans_service := str_of "GitHub";
  ans_overwrite := false;
  ans_username := str_of "octocat";
  ans_generate := false;
  ans_password := str_of "xYz1!"
|}.

End Toy.

(* ===================================================================== *)
(** * Definitions used in the statements and proofs *)
(* ===================================================================== *)

(** Exhaustive checks over bytes, run by the virtual machine. *)
Definition for_all_bytes (P : byte -> bool) : bool := forallb P all_bytes.
Definition for_all_byte_pairs (P : byte -> byte -> bool) : bool :=
  forallb (fun a => forallb (P a) all_bytes) all_bytes.

Module Base64Checks.
Import Base64.

(** [c] is a data character whose value is [v]. *)
Definition sextet_ok (v : N) (c : byte) : bool :=
  negb (Byte.eqb c PAD)
  && match a2b c with Some v' => N.eqb v' v | None => false end
  && negb (Byte.eqb c x2d) && negb (Byte.eqb c x5f).

Definition v1 (a : byte) : N := N.shiftr (Byte.to_N a) 2.
Definition v2 (a b : byte) : N :=
  N.lor (N.shiftl (N.land (Byte.to_N a) 3) 4) (N.shiftr (Byte.to_N b) 4).
Definition v3 (b c : byte) : N :=
  N.lor (N.shiftl (N.land (Byte.to_N b) 15) 2) (N.shiftr (Byte.to_N c) 6).
Definition v4 (c : byte) : N := N.land (Byte.to_N c) 63.
Definition v2' (a : byte) : N := N.shiftl (N.land (Byte.to_N a) 3) 4.
Definition v3' (b : byte) : N := N.shiftl (N.land (Byte.to_N b) 15) 2.

Definition chk1 (a : byte) : bool := sextet_ok (v1 a) (b2a (v1 a)).
Definition chk2 (a b : byte) : bool :=
  sextet_ok (v2 a b) (b2a (v2 a b))
  && Byte.eqb (byte_of_N (N.lor (N.shiftl (v1 a) 2) (N.shiftr (v2 a b) 4))) a
  && N.eqb (N.land (v2 a b) 15) (N.shiftr (Byte.to_N b) 4).
Definition chk3 (b c : byte) : bool :=
  sextet_ok (v3 b c) (b2a (v3 b c))
  && Byte.eqb (byte_of_N (N.lor (N.shiftl (N.shiftr (Byte.to_N b) 4) 4)
                            (N.shiftr (v3 b c) 2))) b
  && N.eqb (N.land (v3 b c) 3) (N.shiftr (Byte.to_N c) 6).
Definition chk4 (c : byte) : bool :=
  sextet_ok (v4 c) (b2a (v4 c))
  && Byte.eqb (byte_of_N (N.lor (N.shiftl (N.shiftr (Byte.to_N c) 6) 6) (v4 c))) c.
Definition chk2' (a : byte) : bool :=
  sextet_ok (v2' a) (b2a (v2' a))
  && Byte.eqb (byte_of_N (N.lor (N.shiftl (v1 a) 2) (N.shiftr (v2' a) 4))) a
  (* the character one above carries the same two data bits *)
  && sextet_ok (v2' a + 1) (b2a (v2' a + 1))
  && Byte.eqb (byte_of_N (N.lor (N.shiftl (v1 a) 2) (N.shiftr (v2' a + 1) 4))) a
  && negb (Byte.eqb (b2a (v2' a + 1)) (b2a (v2' a))).
Definition chk3' (b : byte) : bool :=
  sextet_ok (v3' b) (b2a (v3' b))
  && Byte.eqb (byte_of_N (N.lor (N.shiftl (N.shiftr (Byte.to_N b) 4) 4)
                            (N.shiftr (v3' b) 2))) b.
Definition chk2'' (a : byte) : bool :=
  N.eqb (N.land (v2' a) 15) 0.

(** A character the url-safe translation gives back unchanged. *)
Definition plain_char (c : byte) : Prop := c <> x2d /\ c <> x5f.

End Base64Checks.

(** The salt and the IV one call of [encrypt_data] draws in world [w], the
    key bytes PBKDF2 derives, the token and the file it produces, and the
    world it leaves. *)
Definition salt_drawn (w : world) : bytes :=
  map (entropy w) (seq (drawn w) SALT_SIZE).
Definition iv_drawn (w : world) : bytes :=
  map (entropy w) (seq (drawn w + SALT_SIZE) 16).
Definition raw_key (L : Libs) (pw salt : bytes) : bytes :=
  KDF.pbkdf2_hmac (sha256 L) pw salt KDF_ITERATIONS 32.
Definition token_made (L : Libs) (pw text : bytes) (w : world) : bytes :=
  fernet_encrypt_from_parts L (raw_key L pw (salt_drawn w)) (clock w) (iv_drawn w) text.
Definition vault_file (L : Libs) (pw text : bytes) (w : world) : bytes :=
  Base64.b64encode (salt_drawn w ++ token_made L pw text w).
Definition after_encrypt (w : world) : world := set_drawn (drawn w + 32) w.

(** The world after [decrypt_data] has reported a failure. *)
Definition failed (w : world) : world :=
  set_console (console w ++ [DECRYPTION_FAILED]) w.

(** The bytes of a pure-ASCII string. *)
Definition ascii_bytes (s : pystr) : bytes := map byte_of_N s.

(** A password [str.encode] accepts. *)
Definition encodable (p : pystr) : Prop := exists pw, str_encode p = Some pw.

(** What [decrypt_data] comes to, step by step: every failure on the way
    ends in the same report and the same result [None]. *)
Definition decrypt_outcome (L : Libs) (blob : bytes) (p : pystr) (w : world)
  : result pyvalue * world :=
  match Base64.b64decode blob with
  | None => (Ok PNone, failed w)
  | Some d =>
      match str_encode p with
      | None => (Ok PNone, failed w)
      | Some pw =>
          match fernet_decrypt L (raw_key L pw (take SALT_SIZE d)) (drop SALT_SIZE d) with
          | None => (Ok PNone, failed w)
          | Some data =>
              match json_loads L data with
              | None => (Ok PNone, failed w)
              | Some v => (Ok v, w)
              end
          end
      end
  end.

Definition is_digit (c : N) : Prop := 48 <= c <= 57.

(** The idealised authenticity of Fernet: a token made under one key is
    rejected under every other key. *)
Definition rejects_other_keys (L : Libs) : Prop :=
  forall key key' t iv data,
    length key = 32%nat -> length key' = 32%nat -> key <> key' ->
    fernet_decrypt L key' (fernet_encrypt_from_parts L key t iv data) = None.

(** The key PBKDF2 derives over the stand-in hash: the first 32 bytes of
    the inner-padded key block. *)
Definition toy_key (pw : bytes) : bytes :=
  take 32 (xor_bytes (KDF.hmac_key_block Toy.toy_sha256 pw) (repeat x36 64)).

(* ===================================================================== *)
(** * mypw.py: the remaining vault and application functions *)
(* ===================================================================== *)

(** The answers to the prompts of [reset_vault]: the yes/no question, the
    word typed to confirm, and the answers [initialize_vault] then gets. *)
Record reset_answers := {
  ans_really : bool;
  ans_typed : pystr;
  ans_init : init_answers
}.

(** [f"{e}"] is the message of the exception.  Exceptions carry no message
    here, so the name of the class stands for it. *)
Definition exn_text (e : exn) : pystr :=
  match e with
  | UnicodeEncodeError => str_of "UnicodeEncodeError"
  | BinasciiError => str_of "binascii.Error"
  | ValueError => str_of "ValueError"
  | InvalidToken => str_of "InvalidToken"
  | JSONDecodeError => str_of "JSONDecodeError"
  | KeyError => str_of "KeyError"
  | TypeError => str_of "TypeError"
  | AttributeError => str_of "AttributeError"
  | KeyboardInterrupt => str_of "KeyboardInterrupt"
  | SystemExit => str_of "SystemExit"
  end.

Definition NO_VAULT_TO_RESET : pystr :=
  str_of "[yellow]No vault found. Nothing to reset.[/yellow]".
(** The warning sign U+26A0 U+FE0F. *)
Definition WARNING_SIGN : pystr := [0x26A0; 0xFE0F].
Definition RESET_WARNING : pystr :=
  str_of "[bold red]" ++ WARNING_SIGN ++ str_of " WARNING " ++ WARNING_SIGN
  ++ str_of "[/bold red]" ++ [10; 10]
  ++ str_of "Resetting the master password will:" ++ [10]
  ++ str_of "- Permanently delete ALL stored passwords" ++ [10]
  ++ str_of "- Create a new empty vault" ++ [10; 10]
  ++ str_of "[bold]This action CANNOT be undone.[/bold]".
Definition RESET_CANCELLED : pystr := str_of "[dim]Reset cancelled.[/dim]".
Definition RESET_NOT_CONFIRMED : pystr :=
  str_of "[bold yellow]Confirmation failed. Vault was NOT reset.[/bold yellow]".
Definition OLD_VAULT_DELETED : pystr :=
  str_of "[green]" ++ CHECK_MARK ++ str_of " Old vault deleted.[/green]".
Definition VAULT_EXISTS : pystr :=
  str_of "[bold yellow]Warning:[/bold yellow] Vault already exists. Aborting initialization.".
Definition NO_VAULT_LOGIN : pystr :=
  str_of "[bold red]Error:[/bold red] No vault found. Please run `pw init` to get started.".
Definition VAULT_EMPTY : pystr :=
  str_of "[yellow]Your vault is empty. Use `pw add` to add an entry.[/yellow]".
Definition WELCOME : pystr :=
  str_of "[bold cyan]Welcome to MyPW Setup[/bold cyan]" ++ [10]
  ++ str_of "Let's create your secure vault.".
Definition PASSWORDS_DIFFER : pystr :=
  str_of "[bold red]Error: Passwords do not match.[/bold red]".
Definition PASSWORD_EMPTY : pystr :=
  str_of "[bold red]Error: Master password cannot be empty.[/bold red]".
Definition VAULT_INITIALIZED : pystr :=
  str_of "[bold green]" ++ CHECK_MARK
  ++ str_of " Vault initialized successfully at:[/bold green] " ++ str_of VAULT_PATH.


(** [v.get(k, dflt)] *)
Definition dict_get_default (v : pyvalue) (k : pystr) (dflt : pyvalue) : result pyvalue :=
  match v with
  | PDict d => Ok (default dflt (dict_get k d))
  | _ => Raise AttributeError
  end.

(** [v.items()] *)
Definition items (v : pyvalue) : result (list (pystr * pyvalue)) :=
  match v with
  | PDict d => Ok d
  | _ => Raise AttributeError
  end.

(** [a < b] on strings: lexicographic on code points. *)
Fixpoint str_ltb (a b : pystr) : bool :=
  match a, b with
  | [], [] => false
  | [], _ :: _ => true
  | _ :: _, [] => false
  | x :: a', y :: b' =>
      if x <? y then true else if y <? x then false else str_ltb a' b'
  end.

(** [sorted(accounts.items())]: the items in ascending order of their
    keys.  The keys of a dictionary are distinct, so the order of two items
    is always settled by their keys. *)
Fixpoint insert_item (kv : pystr * pyvalue) (l : list (pystr * pyvalue))
  : list (pystr * pyvalue) :=
  match l with
  | [] => [kv]
  | kv' :: l' =>
      if str_ltb (fst kv') (fst kv) then kv' :: insert_item kv l' else kv :: l
  end.

Definition sorted_items (l : list (pystr * pyvalue)) : list (pystr * pyvalue) :=
  foldr insert_item [] l.

(** The rows of the table: [table.add_row(service, details['username'])]
    for every item in turn. *)
Fixpoint table_rows (its : list (pystr * pyvalue)) : result (list (pystr * pystr)) :=
  match its with
  | [] => Ok []
  | (service, details) :: rest =>
      match getitem details (str_of "username") with
      | Raise e => Raise e
      | Ok v =>
          match as_str v with
          | Raise e => Raise e
          | Ok username =>
              match table_rows rest with
              | Raise e => Raise e
              | Ok rows => Ok ((service, username) :: rows)
              end
          end
      end
  end.

(** What [console.print(table)] shows: the title, the two column heads
    and one line for each row. *)
Definition render_table (rows : list (pystr * pystr)) : pystr :=
  str_of "MyPW Vault" ++ [10] ++ str_of "Service Username"
  ++ flat_map (fun r => [10] ++ fst r ++ [32] ++ snd r) rows.

Section Application.
Context (L : Libs).

Definition reset_vault (a : reset_answers) : M unit :=
  present <-- os_path_exists VAULT_PATH ;;
  if negb present then console_print NO_VAULT_TO_RESET
  else
    console_print RESET_WARNING ;;;
    if negb (ans_really a) then console_print RESET_CANCELLED
    else if negb (pystr_eqb (ans_typed a) (str_of "RESET")) then
      console_print RESET_NOT_CONFIRMED
    else
      try_except_Exception
        (run_actions [FsRemove VAULT_PATH] ;;;
         console_print OLD_VAULT_DELETED ;;;
         initialize_vault L (ans_init a))
        (fun e => console_print (str_of "[bold red]Reset failed: " ++ exn_text e
                                 ++ str_of "[/bold red]")).

(** [MyPW.login]: [typed] is what [getpass] returns; [exit(1)] raises
    [SystemExit].  The result is the object with its two fields set. *)
Definition login (typed : pystr) : M MyPW :=
  present <-- os_path_exists VAULT_PATH ;;
  if negb present then
    console_print NO_VAULT_LOGIN ;;; raise SystemExit
  else
    vault <-- load_vault L typed ;;
    match vault with
    | PNone => raise SystemExit
    | _ => ret {| master_password := typed; vault_data := vault |}
    end.

End Application.

Definition list_entries (self : MyPW) : M unit :=
  accounts <-- lift (dict_get_default (vault_data self) (str_of "accounts") (PDict [])) ;;
  if negb (truthy accounts) then console_print VAULT_EMPTY
  else
    its <-- lift (items accounts) ;;
    rows <-- lift (table_rows (sorted_items its)) ;;
    console_print (render_table rows).

(** ** Notions used in the statements *)


(** [a <= b] on strings. *)
Definition str_le (a b : pystr) : Prop := str_ltb b a = false.


(** The alphabet [generate_password] draws from. *)
Definition alphabet_of (include_symbols include_uppercase include_lowercase
                          include_numbers : bool) : pystr :=
  (if include_uppercase then ascii_uppercase else [])
  ++ (if include_lowercase then ascii_lowercase else [])
  ++ (if include_numbers then digits else [])
  ++ (if include_symbols then punctuation else []).

Module ToyMore.

(** What the user answers to create a vault with the password "hunter2",
    the world after that, and the answers of the spec's example entry. *)
Definition init_hunter2 : init_answers :=
  {| ans_master := Toy.hunter2; ans_confirm := Toy.hunter2 |}.
Definition init_mismatch : init_answers :=
  {| ans_master := Toy.hunter2; ans_confirm := Toy.hunter3 |}.
Definition reset_yes : reset_answers :=
  {| ans_really := true; ans_typed := str_of "RESET"; ans_init := init_hunter2 |}.
Definition reset_no : reset_answers :=
  {| ans_really := true; ans_typed := str_of "reset"; ans_init := init_hunter2 |}.
Definition reset_mismatch : reset_answers :=
  {| ans_really := true; ans_typed := str_of "RESET"; ans_init := init_mismatch |}.
(** A password with a lone surrogate, which UTF-8 cannot encode. *)
Definition surrogate_password : pystr := [0xD800].
(** A world whose vault file is not base64. *)
Definition world_corrupt : world :=
  set_files {[ VAULT_PATH := bytes_of_string "A" ]} Toy.world0.
(** An application whose vault is the empty dictionary. *)
Definition app_bare : MyPW :=
  {| master_password := Toy.hunter2; vault_data := PDict [] |}.

End ToyMore.



(** The world in which a confirmed reset starts the new vault: the warning
    and the deletion have been printed and the vault file is gone. *)
Definition reset_cleared (w : world) : world :=
  set_console (console w ++ [RESET_WARNING; OLD_VAULT_DELETED])
    (set_files (delete VAULT_PATH (files w)) w).


(* ===================================================================== *)
(** * The interactive session *)
(* ===================================================================== *)





Section Session.
Context (L : Libs).



End Session.





(* ===================================================================== *)
(** * The model on small inputs *)
(* ===================================================================== *)

Example b64encode_Man :
  Base64.b64encode (bytes_of_string "Man") = bytes_of_string "TWFu".
Proof. reflexivity. Qed.

Example b64encode_Ma :
  Base64.b64encode (bytes_of_string "Ma") = bytes_of_string "TWE=".
Proof. reflexivity. Qed.

Example b64decode_lenient_bits :
  Base64.b64decode (bytes_of_string "QR==") = Some (bytes_of_string "A")
  /\ Base64.b64decode (bytes_of_string "QQ==") = Some (bytes_of_string "A").
Proof. split; reflexivity. Qed.

Example b64decode_skips_newline :
  Base64.b64decode [x54; x57; x0a; x46; x75] = Some (bytes_of_string "Man").
Proof. reflexivity. Qed.

Example b64decode_incorrect_padding :
  Base64.b64decode (bytes_of_string "QQ=") = None.
Proof. reflexivity. Qed.

Example urlsafe_b64encode_fbff :
  Base64.urlsafe_b64encode [xfb; xff] = bytes_of_string "-_8=".
Proof. reflexivity. Qed.

Example str_encode_euro : str_encode [0x20AC] = Some [xe2; x82; xac].
Proof. reflexivity. Qed.

Example str_encode_lone_surrogate : str_encode [0xD800] = None.
Proof. reflexivity. Qed.

Example dict_set_keeps_order :
  dict_set (str_of "a") (PInt 3) [(str_of "a", PInt 1); (str_of "b", PInt 2)]
  = [(str_of "a", PInt 3); (str_of "b", PInt 2)]
  /\ dict_set (str_of "c") (PInt 3) [(str_of "a", PInt 1)]
     = [(str_of "a", PInt 1); (str_of "c", PInt 3)].
Proof. split; reflexivity. Qed.

Example hmac_key_block_hunter2 (H : bytes -> bytes) :
  KDF.hmac_key_block H (bytes_of_string "hunter2" ++ [x00])
  = KDF.hmac_key_block H (bytes_of_string "hunter2").
Proof. reflexivity. Qed.

Example generate_eight_digits :
  fst (generate_password 8 false false false true Toy.world0)
  = Ok (PStr (str_of "01234567")).
Proof. reflexivity. Qed.

Example generate_nothing_selected :
  fst (generate_password 8 false false false false Toy.world0) = Ok PNone.
Proof. reflexivity. Qed.

Example punctuation_has_32 : length punctuation = 32%nat.
Proof. reflexivity. Qed.

Example two_digits_examples :
  two_digits 15 = str_of "15" /\ two_digits 7 = str_of " 7".
Proof. split; reflexivity. Qed.

(* ===================================================================== *)
(** * Bytes and base64: round trip *)
(* ===================================================================== *)

Lemma byte_of_to_N (b : byte) : byte_of_N (Byte.to_N b) = b.
Proof.
  unfold byte_of_N.
  rewrite N.mod_small by (pose proof (Byte.to_N_bounded b); lia).
  now rewrite Byte.of_to_N.
Qed.

Lemma all_bytes_complete (b : byte) : In b all_bytes.
Proof.
  unfold all_bytes. apply in_map_iff.
  exists (N.to_nat (Byte.to_N b)). split.
  - rewrite N2Nat.id. apply byte_of_to_N.
  - apply in_seq. pose proof (Byte.to_N_bounded b). lia.
Qed.

Lemma for_all_bytes_spec (P : byte -> bool) :
  for_all_bytes P = true -> forall b, P b = true.
Proof.
  unfold for_all_bytes. intros H b.
  rewrite forallb_forall in H. apply H, all_bytes_complete.
Qed.

Lemma for_all_byte_pairs_spec (P : byte -> byte -> bool) :
  for_all_byte_pairs P = true -> forall a b, P a b = true.
Proof.
  unfold for_all_byte_pairs. intros H a b.
  rewrite forallb_forall in H. specialize (H a (all_bytes_complete a)).
  rewrite forallb_forall in H. apply H, all_bytes_complete.
Qed.

Module Base64Facts.
Import Base64 Base64Checks.

Lemma chk1_all a : chk1 a = true.
Proof. revert a. apply for_all_bytes_spec. vm_compute. reflexivity. Qed.
Lemma chk4_all a : chk4 a = true.
Proof. revert a. apply for_all_bytes_spec. vm_compute. reflexivity. Qed.
Lemma chk2'_all a : chk2' a = true.
Proof. revert a. apply for_all_bytes_spec. vm_compute. reflexivity. Qed.
Lemma chk3'_all a : chk3' a = true.
Proof. revert a. apply for_all_bytes_spec. vm_compute. reflexivity. Qed.
Lemma chk2''_all a : chk2'' a = true.
Proof. revert a. apply for_all_bytes_spec. vm_compute. reflexivity. Qed.
Lemma chk2_all a b : chk2 a b = true.
Proof. revert a b. apply for_all_byte_pairs_spec. vm_compute. reflexivity. Qed.
Lemma chk3_all a b : chk3 a b = true.
Proof. revert a b. apply for_all_byte_pairs_spec. vm_compute. reflexivity. Qed.


Lemma sextet_ok_spec v c :
  sextet_ok v c = true ->
  Byte.eqb c PAD = false /\ a2b c = Some v /\ c <> x2d /\ c <> x5f.
Proof.
  unfold sextet_ok. rewrite !andb_true_iff, !negb_true_iff.
  intros [[[H1 H2] H3] H4]. repeat split; auto.
  - destruct (a2b c) as [v'|]; [|discriminate].
    apply N.eqb_eq in H2. now subst.
  - intros ->. discriminate.
  - intros ->. discriminate.
Qed.

(** One step of the loop on a data character. *)
Lemma a2b_loop_data c v s q l p out :
  Byte.eqb c PAD = false -> a2b c = Some v ->
  a2b_loop (c :: s) q l p out =
  match q with
  | 0 => a2b_loop s 1 v 0 out
  | 1 => a2b_loop s 2 (N.land v 15) 0
           (out ++ [byte_of_N (N.lor (N.shiftl l 2) (N.shiftr v 4))])
  | 2 => a2b_loop s 3 (N.land v 3) 0
           (out ++ [byte_of_N (N.lor (N.shiftl l 4) (N.shiftr v 2))])
  | _ => a2b_loop s 0 0 0 (out ++ [byte_of_N (N.lor (N.shiftl l 6) v)])
  end.
Proof. intros H1 H2. cbn [a2b_loop]. now rewrite H1, H2. Qed.

Lemma a2b_loop_sextet v s q l p out :
  sextet_ok v (b2a v) = true ->
  a2b_loop (b2a v :: s) q l p out =
  match q with
  | 0 => a2b_loop s 1 v 0 out
  | 1 => a2b_loop s 2 (N.land v 15) 0
           (out ++ [byte_of_N (N.lor (N.shiftl l 2) (N.shiftr v 4))])
  | 2 => a2b_loop s 3 (N.land v 3) 0
           (out ++ [byte_of_N (N.lor (N.shiftl l 4) (N.shiftr v 2))])
  | _ => a2b_loop s 0 0 0 (out ++ [byte_of_N (N.lor (N.shiftl l 6) v)])
  end.
Proof.
  intros H. apply sextet_ok_spec in H as (H1 & H2 & _).
  now apply a2b_loop_data.
Qed.

Lemma enc3_eq a b c : enc3 a b c = [b2a (v1 a); b2a (v2 a b); b2a (v3 b c); b2a (v4 c)].
Proof. reflexivity. Qed.
Lemma enc2_eq a b : enc2 a b = [b2a (v1 a); b2a (v2 a b); b2a (v3' b); PAD].
Proof. reflexivity. Qed.
Lemma enc1_eq a : enc1 a = [b2a (v1 a); b2a (v2' a); PAD; PAD].
Proof. reflexivity. Qed.

(** The first two characters of a group give back its first byte. *)
Lemma a2b_loop_first_byte a b s l p out :
  a2b_loop (b2a (v1 a) :: b2a (v2 a b) :: s) 0 l p out =
  a2b_loop s 2 (N.shiftr (Byte.to_N b) 4) 0 (out ++ [a]).
Proof.
  pose proof (chk1_all a) as C1. pose proof (chk2_all a b) as C2.
  unfold chk1 in C1. unfold chk2 in C2.
  rewrite !andb_true_iff in C2. destruct C2 as [[C2 C2b] C2c].
  rewrite (a2b_loop_sextet _ _ _ _ _ _ C1), (a2b_loop_sextet _ _ _ _ _ _ C2).
  apply Byte.byte_dec_bl in C2b. apply N.eqb_eq in C2c.
  now rewrite C2b, C2c.
Qed.

Lemma a2b_loop_enc3 a b c s l p out :
  a2b_loop (enc3 a b c ++ s) 0 l p out = a2b_loop s 0 0 0 (out ++ [a; b; c]).
Proof.
  rewrite enc3_eq. cbn [app]. rewrite a2b_loop_first_byte.
  pose proof (chk3_all b c) as C3. pose proof (chk4_all c) as C4.
  unfold chk3 in C3. unfold chk4 in C4.
  rewrite !andb_true_iff in C3. rewrite !andb_true_iff in C4.
  destruct C3 as [[C3 C3b] C3c]. destruct C4 as [C4 C4b].
  rewrite (a2b_loop_sextet _ _ _ _ _ _ C3), (a2b_loop_sextet _ _ _ _ _ _ C4).
  apply Byte.byte_dec_bl in C3b, C4b. apply N.eqb_eq in C3c.
  rewrite C3b, C3c, C4b. now rewrite <- !app_assoc.
Qed.

Lemma a2b_loop_pad_continue s q l p out :
  (2 <=? q) = true -> (4 <=? q + (p + 1)) = false ->
  a2b_loop (PAD :: s) q l p out = a2b_loop s q l (p + 1) out.
Proof. intros H1 H2. cbn [a2b_loop]. now rewrite H1, H2. Qed.

Lemma a2b_loop_pad_done s q l p out :
  (2 <=? q) = true -> (4 <=? q + (p + 1)) = true ->
  a2b_loop (PAD :: s) q l p out = Some out.
Proof. intros H1 H2. cbn [a2b_loop]. now rewrite H1, H2. Qed.

Lemma a2b_loop_enc2 a b s l p out :
  a2b_loop (enc2 a b ++ s) 0 l p out = Some (out ++ [a; b]).
Proof.
  rewrite enc2_eq. cbn [app]. rewrite a2b_loop_first_byte.
  pose proof (chk3'_all b) as C3. unfold chk3' in C3.
  rewrite !andb_true_iff in C3. destruct C3 as [C3 C3b].
  rewrite (a2b_loop_sextet _ _ _ _ _ _ C3).
  apply Byte.byte_dec_bl in C3b. rewrite C3b.
  rewrite a2b_loop_pad_done by reflexivity. now rewrite <- !app_assoc.
Qed.

Lemma v2_x00 a : v2 a x00 = v2' a.
Proof. unfold v2, v2'. change (N.shiftr (Byte.to_N x00) 4) with 0. apply N.lor_0_r. Qed.

Lemma a2b_loop_enc1 a s l p out :
  a2b_loop (enc1 a ++ s) 0 l p out = Some (out ++ [a]).
Proof.
  rewrite enc1_eq. cbn [app]. rewrite <- v2_x00, a2b_loop_first_byte.
  rewrite a2b_loop_pad_continue by reflexivity.
  now rewrite a2b_loop_pad_done by reflexivity.
Qed.

Lemma list_ind3 {A} (P : list A -> Prop) :
  P [] -> (forall a, P [a]) -> (forall a b, P [a; b]) ->
  (forall a b c r, P r -> P (a :: b :: c :: r)) ->
  forall l, P l.
Proof.
  intros H0 H1 H2 H3. fix IH 1.
  intros [|a [|b [|c r]]];
    [ exact H0 | apply H1 | apply H2 | apply H3, IH ].
Qed.

Lemma a2b_loop_encode s : forall l p out,
  a2b_loop (b64encode s) 0 l p out = Some (out ++ s).
Proof.
  pattern s. apply list_ind3; clear s.
  - intros l p out. cbn. now rewrite app_nil_r.
  - intros a l p out.
    rewrite <- (app_nil_r (b64encode [a])). apply a2b_loop_enc1.
  - intros a b l p out.
    rewrite <- (app_nil_r (b64encode [a; b])). apply a2b_loop_enc2.
  - intros a b c r IH l p out.
    change (b64encode (a :: b :: c :: r)) with (enc3 a b c ++ b64encode r).
    rewrite a2b_loop_enc3, IH. now rewrite <- app_assoc.
Qed.

(** [base64.b64decode(base64.b64encode(s)) == s] *)
Lemma b64decode_b64encode s : b64decode (b64encode s) = Some s.
Proof. unfold b64decode. now rewrite a2b_loop_encode. Qed.



(** ** The url-safe alphabet *)

Lemma urlsafe_char_roundtrip c :
  c <> x2d -> c <> x5f -> urlsafe_decode_char (urlsafe_encode_char c) = c.
Proof.
  intros H1 H2. unfold urlsafe_encode_char.
  destruct (Byte.eqb c x2b) eqn:E1.
  { apply Byte.byte_dec_bl in E1. now subst. }
  destruct (Byte.eqb c x2f) eqn:E2.
  { apply Byte.byte_dec_bl in E2. now subst. }
  unfold urlsafe_decode_char.
  destruct (Byte.eqb c x2d) eqn:E3.
  { apply Byte.byte_dec_bl in E3. contradiction. }
  destruct (Byte.eqb c x5f) eqn:E4.
  { apply Byte.byte_dec_bl in E4. contradiction. }
  reflexivity.
Qed.

Lemma b2a_plain v : sextet_ok v (b2a v) = true -> plain_char (b2a v).
Proof. intros H. apply sextet_ok_spec in H as (_ & _ & H1 & H2). now split. Qed.

Lemma PAD_plain : plain_char PAD.
Proof. split; discriminate. Qed.

Ltac chk_facts :=
  repeat match goal with
    | H : _ && _ = true |- _ => apply andb_true_iff in H; destruct H
    end.

Ltac forall_cons :=
  repeat match goal with
    | |- Forall _ (_ :: _) => apply List.Forall_cons
    | |- Forall _ [] => apply List.Forall_nil
    end.

Lemma b64encode_plain s : Forall plain_char (b64encode s).
Proof.
  pattern s. apply list_ind3; clear s.
  - constructor.
  - intros a. change (b64encode [a]) with (enc1 a). rewrite enc1_eq.
    pose proof (chk1_all a) as C1. pose proof (chk2'_all a) as C2.
    unfold chk1 in C1. unfold chk2' in C2. chk_facts.
    forall_cons; auto using b2a_plain, PAD_plain.
  - intros a b. change (b64encode [a; b]) with (enc2 a b). rewrite enc2_eq.
    pose proof (chk1_all a) as C1. pose proof (chk2_all a b) as C2.
    pose proof (chk3'_all b) as C3.
    unfold chk1 in C1. unfold chk2 in C2. unfold chk3' in C3. chk_facts.
    forall_cons; auto using b2a_plain, PAD_plain.
  - intros a b c r IH.
    change (b64encode (a :: b :: c :: r)) with (enc3 a b c ++ b64encode r).
    rewrite enc3_eq.
    pose proof (chk1_all a) as C1. pose proof (chk2_all a b) as C2.
    pose proof (chk3_all b c) as C3. pose proof (chk4_all c) as C4.
    unfold chk1 in C1. unfold chk2 in C2. unfold chk3 in C3. unfold chk4 in C4.
    chk_facts.
    cbn [app]. forall_cons; auto using b2a_plain.
Qed.

(** [base64.urlsafe_b64decode(base64.urlsafe_b64encode(s)) == s] *)
Lemma urlsafe_b64decode_b64encode s :
  urlsafe_b64decode (urlsafe_b64encode s) = Some s.
Proof.
  unfold urlsafe_b64decode, urlsafe_b64encode.
  assert (E : map urlsafe_decode_char (map urlsafe_encode_char (b64encode s))
              = b64encode s).
  { pose proof (b64encode_plain s) as F.
    induction F as [|c l [H1 H2] F IH]; [reflexivity|].
    cbn [map]. rewrite urlsafe_char_roundtrip by assumption. now rewrite IH. }
  rewrite E. apply b64decode_b64encode.
Qed.

Lemma urlsafe_b64encode_inj s t : urlsafe_b64encode s = urlsafe_b64encode t -> s = t.
Proof.
  intros H. apply (f_equal urlsafe_b64decode) in H.
  rewrite !urlsafe_b64decode_b64encode in H. congruence.
Qed.

(** ** Lengths *)



(** ** Decoding after a whole number of groups *)






(** ** Characters that carry unused bits

    A group that encodes one byte carries four bits in its second
    character that no byte receives: the decoder reads the same byte from
    the character one above. *)




(** ** The head of the container survives changes further on

    The first 22 characters of the encoding of [s] determine the first 16
    bytes of whatever the decoder returns. *)



End Base64Facts.

(* ===================================================================== *)
(** * Key derivation *)
(* ===================================================================== *)

Module KDFFacts.
Import KDF.

Lemma length_xor_bytes a : forall b,
  length (xor_bytes a b) = Nat.min (length a) (length b).
Proof.
  induction a as [|x a IH]; intros [|y b]; cbn [xor_bytes length]; auto.
  now rewrite IH.
Qed.

Lemma length_pbkdf2_block prf salt c i :
  (forall m, length (prf m) = 32%nat) ->
  length (pbkdf2_block prf salt c i) = 32%nat.
Proof.
  intros Hprf. unfold pbkdf2_block.
  set (step := fun ut : bytes * bytes => _).
  assert (Inv : forall ut, length (snd ut) = 32%nat -> length (snd (step ut)) = 32%nat).
  { intros [u t] Ht. unfold step. cbn [fst snd] in *.
    rewrite length_xor_bytes, Ht, Hprf. reflexivity. }
  apply (N.iter_invariant (c - 1) _ step (fun ut => length (snd ut) = 32%nat)).
  - intros ut Hut. now apply Inv.
  - cbn [snd]. apply Hprf.
Qed.

Lemma length_hmac H key msg :
  (forall m, length (H m) = 32%nat) -> length (hmac H key msg) = 32%nat.
Proof. intros HH. unfold hmac, hmac_with_block. apply HH. Qed.

(** The derived key has 32 bytes whatever the password and the salt. *)
Lemma length_pbkdf2_hmac H pw salt c :
  (forall m, length (H m) = 32%nat) ->
  length (pbkdf2_hmac H pw salt c 32) = 32%nat.
Proof.
  intros HH. unfold pbkdf2_hmac.
  change ((32 + DIGEST_SIZE - 1) / DIGEST_SIZE)%nat with 1%nat.
  cbn [seq flat_map]. rewrite app_nil_r.
  rewrite length_take, length_pbkdf2_block; [reflexivity|].
  intros m. now apply length_hmac.
Qed.

(** HMAC pads a short key with zero bytes: a key shorter than the block
    and the same key followed by a zero byte give the same key block. *)
Lemma hmac_key_block_nul H key :
  (length key < BLOCK_SIZE)%nat ->
  hmac_key_block H (key ++ [x00]) = hmac_key_block H key.
Proof.
  intros Hlen. unfold hmac_key_block, BLOCK_SIZE in *.
  rewrite length_app. cbn [length].
  destruct (Nat.ltb_spec 64 (length key + 1)) as [?|_]; [lia|].
  destruct (Nat.ltb_spec 64 (length key)) as [?|_]; [lia|].
  rewrite length_app. cbn [length]. rewrite <- app_assoc. f_equal.
  replace (64 - length key)%nat with (S (64 - (length key + 1))) by lia.
  reflexivity.
Qed.

Lemma pbkdf2_hmac_key_block H k1 k2 salt c n :
  hmac_key_block H k1 = hmac_key_block H k2 ->
  pbkdf2_hmac H k1 salt c n = pbkdf2_hmac H k2 salt c n.
Proof. intros E. unfold pbkdf2_hmac, hmac. now rewrite E. Qed.


(** ** PBKDF2 over the stand-in hash, in closed form *)

Lemma lookup_repeat {A} (x : A) n i : (i < n)%nat -> repeat x n !! i = Some x.
Proof.
  revert i. induction n as [|n IH]; intros [|i] Hi; try lia; cbn; auto.
  apply IH. lia.
Qed.

Lemma lookup_xor_bytes a : forall b i x y,
  a !! i = Some x -> b !! i = Some y -> xor_bytes a b !! i = Some (xor_byte x y).
Proof.
  induction a as [|x0 a IH]; intros [|y0 b] [|i] x y Ha Hb;
    cbn in *; try discriminate.
  - congruence.
  - eauto.
Qed.

Lemma xor_byte_zero b : xor_byte b x00 = b.
Proof.
  assert (H : Byte.eqb (xor_byte b x00) b = true).
  { revert b. apply for_all_bytes_spec. vm_compute. reflexivity. }
  now apply Byte.byte_dec_bl.
Qed.

Lemma xor_bytes_zero a : forall n,
  (length a <= n)%nat -> xor_bytes a (repeat x00 n) = a.
Proof.
  induction a as [|x a IH]; intros [|n] Hn; cbn in *; try lia; auto.
  rewrite xor_byte_zero, IH by lia. reflexivity.
Qed.

Section ToyPBKDF2.
Import Toy.
Variable pw : bytes.
Hypothesis pw_short : (length pw <= 63)%nat.

Let k0 := hmac_key_block toy_sha256 pw.
Let ikey := xor_bytes k0 (repeat x36 BLOCK_SIZE).
Let okey := xor_bytes k0 (repeat x5c BLOCK_SIZE).

Lemma k0_eq : k0 = pw ++ repeat x00 (64 - length pw)%nat.
Proof using pw_short.
  unfold k0, hmac_key_block, BLOCK_SIZE.
  destruct (Nat.ltb_spec 64 (length pw)) as [?|_]; [lia|reflexivity].
Qed.

Lemma length_k0 : length k0 = 64%nat.
Proof using pw_short. rewrite k0_eq, length_app, repeat_length. lia. Qed.

Lemma k0_last : k0 !! 63%nat = Some x00.
Proof using pw_short.
  rewrite k0_eq, lookup_app_r by lia. apply lookup_repeat. lia.
Qed.

Lemma length_ikey : length ikey = 64%nat.
Proof using pw_short.
  unfold ikey. rewrite length_xor_bytes, length_k0, repeat_length. reflexivity.
Qed.

Lemma length_okey : length okey = 64%nat.
Proof using pw_short.
  unfold okey. rewrite length_xor_bytes, length_k0, repeat_length. reflexivity.
Qed.

Lemma ikey_last : ikey !! 63%nat = Some x36.
Proof using pw_short.
  unfold ikey.
  rewrite (lookup_xor_bytes k0 (repeat x36 BLOCK_SIZE) 63 x00 x36);
    [reflexivity|apply k0_last|].
  apply lookup_repeat. unfold BLOCK_SIZE. lia.
Qed.

Lemma okey_last : okey !! 63%nat = Some x5c.
Proof using pw_short.
  unfold okey.
  rewrite (lookup_xor_bytes k0 (repeat x5c BLOCK_SIZE) 63 x00 x5c);
    [reflexivity|apply k0_last|].
  apply lookup_repeat. unfold BLOCK_SIZE. lia.
Qed.

(** The outer hash passes a 32-byte inner digest through. *)
Lemma toy_outer inner :
  length inner = 32%nat -> toy_sha256 (okey ++ inner) = inner.
Proof using pw_short.
  intros Hlen. unfold toy_sha256.
  rewrite length_app, length_okey, Hlen. cbn [Nat.add Nat.eqb].
  rewrite lookup_app_l by (rewrite length_okey; lia).
  rewrite okey_last, bool_decide_eq_true_2 by reflexivity.
  rewrite drop_app_length' by (now rewrite length_okey).
  rewrite take_app_length' by (now rewrite Hlen). reflexivity.
Qed.

(** The inner hash of a later round is zero. *)
Lemma toy_inner_later u :
  length u = 32%nat -> toy_sha256 (ikey ++ u) = repeat x00 32.
Proof using pw_short.
  intros Hlen. unfold toy_sha256.
  rewrite length_app, length_ikey, Hlen. cbn [Nat.add Nat.eqb].
  rewrite lookup_app_l by (rewrite length_ikey; lia).
  rewrite ikey_last, bool_decide_eq_false_2 by discriminate.
  reflexivity.
Qed.

(** The inner hash of the first round is the head of the key block. *)
Lemma toy_inner_first msg :
  length msg = 20%nat -> toy_sha256 (ikey ++ msg) = take 32 ikey.
Proof using pw_short.
  intros Hlen. unfold toy_sha256.
  rewrite length_app, length_ikey, Hlen. cbn [Nat.add Nat.eqb].
  rewrite <- app_assoc, take_app_le by (rewrite length_ikey; lia).
  reflexivity.
Qed.

Lemma length_take_ikey : length (take 32 ikey) = 32%nat.
Proof using pw_short. rewrite length_take, length_ikey. reflexivity. Qed.

Lemma toy_prf_first msg :
  length msg = 20%nat -> hmac toy_sha256 pw msg = take 32 ikey.
Proof using pw_short.
  intros Hlen. unfold hmac, hmac_with_block. fold k0. fold ikey. fold okey.
  rewrite toy_inner_first by assumption. apply toy_outer, length_take_ikey.
Qed.

Lemma toy_prf_later u :
  length u = 32%nat -> hmac toy_sha256 pw u = repeat x00 32.
Proof using pw_short.
  intros Hlen. unfold hmac, hmac_with_block. fold k0. fold ikey. fold okey.
  rewrite toy_inner_later by assumption. apply toy_outer, repeat_length.
Qed.

Lemma toy_pbkdf2_block salt c i :
  length salt = 16%nat ->
  pbkdf2_block (hmac toy_sha256 pw) salt c i = take 32 ikey.
Proof using pw_short.
  intros Hsalt. unfold pbkdf2_block.
  rewrite toy_prf_first by (rewrite length_app, Hsalt; reflexivity).
  set (step := fun ut : bytes * bytes => _).
  apply (N.iter_invariant (c - 1) _ step
           (fun ut => length (fst ut) = 32%nat /\ snd ut = take 32 ikey)).
  - intros [u t] [Hu Ht]. unfold step. cbn [fst snd] in *.
    rewrite toy_prf_later by assumption. split; [apply repeat_length|].
    rewrite Ht. apply xor_bytes_zero. rewrite length_take_ikey. lia.
  - cbn [fst snd]. split; [apply length_take_ikey|reflexivity].
Qed.

Lemma toy_pbkdf2 salt c :
  length salt = 16%nat ->
  pbkdf2_hmac toy_sha256 pw salt c 32 = take 32 ikey.
Proof using pw_short.
  intros Hsalt. unfold pbkdf2_hmac.
  change ((32 + DIGEST_SIZE - 1) / DIGEST_SIZE)%nat with 1%nat.
  cbn [seq flat_map]. rewrite app_nil_r, toy_pbkdf2_block by assumption.
  apply take_ge. rewrite length_take_ikey. lia.
Qed.

End ToyPBKDF2.

End KDFFacts.

(* ===================================================================== *)
(** * The vault codec *)
(* ===================================================================== *)

Arguments KDF.pbkdf2_hmac : simpl never.
Arguments Base64.b64encode : simpl never.
Arguments Base64.b64decode : simpl never.
Arguments Base64.urlsafe_b64encode : simpl never.
Arguments Base64.urlsafe_b64decode : simpl never.
Arguments str_encode : simpl never.
Opaque KDF.pbkdf2_hmac.

Lemma str_encode_ascii s : is_ascii s = true -> str_encode s = Some (ascii_bytes s).
Proof.
  unfold is_ascii, str_encode, ascii_bytes.
  induction s as [|c s IH]; intros H; [reflexivity|].
  cbn [forallb] in H. apply andb_true_iff in H as [Hc Hs].
  cbn [map]. fold str_encode in *. unfold utf8_char.
  assert (E : (c <? 128) = true) by exact Hc.
  change 0x80 with 128. rewrite E, (IH Hs). reflexivity.
Qed.

Lemma length_raw_key L pw salt :
  LibsOk L -> length (raw_key L pw salt) = 32%nat.
Proof. intros HL. unfold raw_key. apply KDFFacts.length_pbkdf2_hmac, (sha256_length L HL). Qed.

Lemma derive_key_ok L p pw salt w :
  str_encode p = Some pw ->
  derive_key L p salt w = (Ok (Base64.urlsafe_b64encode (raw_key L pw salt)), w).
Proof. intros E. unfold derive_key, raw_key, bind, lift, ret. rewrite E. reflexivity. Qed.

Lemma derive_key_unencodable L p salt w :
  str_encode p = None ->
  derive_key L p salt w = (Raise UnicodeEncodeError, w).
Proof. intros E. unfold derive_key, bind, lift, ret. rewrite E. reflexivity. Qed.

Lemma Fernet_ok raw w :
  length raw = 32%nat -> Fernet (Base64.urlsafe_b64encode raw) w = (Ok raw, w).
Proof.
  intros H. unfold Fernet.
  rewrite Base64Facts.urlsafe_b64decode_b64encode, H. reflexivity.
Qed.

Lemma length_salt_drawn w : length (salt_drawn w) = 16%nat.
Proof. unfold salt_drawn. now rewrite length_map, length_seq. Qed.

Lemma encrypt_data_ok L c p pw text w :
  LibsOk L ->
  str_encode p = Some pw ->
  str_encode (json_dumps L c) = Some text ->
  encrypt_data L c p w = (Ok (vault_file L pw text w), after_encrypt w).
Proof.
  intros HL Ep Et. unfold encrypt_data, bind at 1, os_urandom.
  unfold bind at 1. rewrite (derive_key_ok L p pw) by assumption.
  unfold bind at 1. rewrite Fernet_ok by now apply length_raw_key.
  unfold bind at 1, str_encode_py, lift. rewrite Et.
  unfold bind, Fernet_encrypt, bind, time_time, os_urandom, ret.
  unfold vault_file, token_made, salt_drawn, iv_drawn, after_encrypt, set_drawn.
  cbn [entropy drawn clock files console clipboard].
  f_equal. unfold SALT_SIZE. f_equal. lia.
Qed.

Lemma json_text_exists L c :
  LibsOk L -> str_encode (json_dumps L c) = Some (ascii_bytes (json_dumps L c)).
Proof. intros HL. apply str_encode_ascii, (json_dumps_ascii L HL). Qed.

Lemma decrypt_data_spec L blob p w :
  LibsOk L -> decrypt_data L blob p w = decrypt_outcome L blob p w.
Proof.
  intros HL. unfold decrypt_data, decrypt_outcome, try_except_Exception.
  unfold bind at 1, b64decode_py, lift.
  destruct (Base64.b64decode blob) as [d|]; [|reflexivity].
  unfold bind at 1.
  destruct (str_encode p) as [pw|] eqn:Ep.
  2:{ rewrite derive_key_unencodable by assumption. reflexivity. }
  rewrite (derive_key_ok L p pw) by assumption.
  unfold bind at 1. rewrite Fernet_ok by now apply length_raw_key.
  unfold bind at 1, Fernet_decrypt, lift.
  destruct (fernet_decrypt L _ _) as [data|]; [|reflexivity].
  unfold json_loads_py, lift.
  destruct (json_loads L data) as [v|]; reflexivity.
Qed.

(** Without any assumption on the libraries: [decrypt_data] returns, and
    a failure is always the same report. *)
Lemma decrypt_data_total_aux L blob p w r :
  decrypt_data L blob p w = r ->
  (exists v, r = (Ok v, w)) \/ r = (Ok PNone, failed w).
Proof.
  intros H. unfold decrypt_data, try_except_Exception in H.
  unfold bind at 1, b64decode_py, lift in H.
  destruct (Base64.b64decode blob) as [d|]; [|right; now subst r].
  unfold bind at 1 in H.
  destruct (str_encode p) as [pw|] eqn:Ep.
  2:{ rewrite derive_key_unencodable in H by assumption. right; now subst r. }
  rewrite (derive_key_ok L p pw) in H by assumption.
  unfold bind at 1, Fernet in H.
  destruct (Base64.urlsafe_b64decode _) as [raw|]; [|right; now subst r].
  destruct (Nat.eqb (length raw) 32); [|right; now subst r].
  unfold ret at 1 in H. unfold bind at 1, Fernet_decrypt, lift in H.
  destruct (fernet_decrypt L _ _) as [data|]; [|right; now subst r].
  unfold json_loads_py, lift in H.
  destruct (json_loads L data) as [v|]; [left; exists v; now subst r|right; now subst r].
Qed.

Lemma decrypt_data_total L blob p w :
  (exists v, decrypt_data L blob p w = (Ok v, w))
  \/ decrypt_data L blob p w = (Ok PNone, failed w).
Proof. apply (decrypt_data_total_aux L blob p w). reflexivity. Qed.

(** Decrypting a file made by [encrypt_data] with any password that
    derives the same key gives the contents back. *)
Lemma decrypt_vault_file L c pw text p' pw' w w' :
  LibsOk L ->
  str_encode p' = Some pw' ->
  json_loads L text = Some c ->
  raw_key L pw' (salt_drawn w) = raw_key L pw (salt_drawn w) ->
  decrypt_data L (vault_file L pw text w) p' w' = (Ok c, w').
Proof.
  intros HL Ep' Ej Ek. rewrite decrypt_data_spec by assumption.
  unfold decrypt_outcome, vault_file.
  rewrite Base64Facts.b64decode_b64encode, Ep'.
  rewrite take_app_length' by (symmetry; apply length_salt_drawn).
  rewrite drop_app_length' by (symmetry; apply length_salt_drawn).
  rewrite Ek. unfold token_made.
  rewrite (fernet_roundtrip L HL) by now apply length_raw_key.
  rewrite Ej. reflexivity.
Qed.

(* ===================================================================== *)
(** * The small instance meets the contracts *)
(* ===================================================================== *)

Module ToyFacts.
Import Toy.

Lemma length_toy_sha256 m : length (toy_sha256 m) = 32%nat.
Proof.
  unfold toy_sha256. rewrite length_take, length_app, repeat_length. lia.
Qed.

Lemma toy_roundtrip key t iv data :
  toy_decrypt key (toy_encrypt key t iv data) = Some data.
Proof.
  unfold toy_decrypt, toy_encrypt.
  rewrite take_app_length, drop_app_length.
  now rewrite bool_decide_eq_true_2.
Qed.

Lemma toy_rejects_other_key key key' t iv data :
  length key = length key' -> key <> key' ->
  toy_decrypt key' (toy_encrypt key t iv data) = None.
Proof.
  intros Hlen Hne. unfold toy_decrypt, toy_encrypt.
  rewrite <- Hlen, take_app_length.
  now rewrite bool_decide_eq_false_2.
Qed.

Lemma toy_dumps_ascii v : is_ascii (toy_dumps v) = true.
Proof.
  unfold is_ascii, toy_dumps. apply forallb_forall.
  intros c Hc. apply in_map_iff in Hc as (c' & <- & _).
  destruct (c' <? 128) eqn:E; [exact E|reflexivity].
Qed.

Lemma libs_ok : LibsOk libs.
Proof.
  split.
  - apply length_toy_sha256.
  - intros key t iv data _. apply toy_roundtrip.
  - apply toy_dumps_ascii.
Qed.

Lemma hunter2_encodable : encodable hunter2.
Proof. exists (bytes_of_string "hunter2"). vm_compute. reflexivity. Qed.

Lemma empty_vault_roundtrips : json_roundtrips libs empty_vault.
Proof.
  exists (ascii_bytes (toy_dumps empty_vault)). split; vm_compute; reflexivity.
Qed.

Lemma example_vault_roundtrips : json_roundtrips libs example_vault.
Proof.
  exists (ascii_bytes (toy_dumps example_vault)). split; vm_compute; reflexivity.
Qed.


Lemma libs_rejects_other_keys : rejects_other_keys libs.
Proof.
  intros key key' t iv data Hk Hk' Hne.
  apply toy_rejects_other_key; congruence.
Qed.

Lemma toy_raw_key pw salt :
  (length pw <= 63)%nat -> length salt = 16%nat ->
  raw_key libs pw salt = toy_key pw.
Proof.
  intros Hpw Hsalt. unfold raw_key, toy_key.
  exact (KDFFacts.toy_pbkdf2 pw Hpw salt KDF_ITERATIONS Hsalt).
Qed.

Lemma hunter_keys_differ :
  toy_key (bytes_of_string "hunter2") <> toy_key (bytes_of_string "hunter3").
Proof. vm_compute. discriminate. Qed.

End ToyFacts.

(** HMAC pads the password with zero bytes, so a password shorter than
    64 bytes and the same password followed by U+0000 derive one key. *)
Lemma nul_suffix_same_key L pw salt :
  (length pw < 64)%nat -> raw_key L (pw ++ [x00]) salt = raw_key L pw salt.
Proof.
  intros Hlen. unfold raw_key.
  apply KDFFacts.pbkdf2_hmac_key_block, KDFFacts.hmac_key_block_nul, Hlen.
Qed.

Lemma str_encode_app s t bs bt :
  str_encode s = Some bs -> str_encode t = Some bt ->
  str_encode (s ++ t) = Some (bs ++ bt).
Proof.
  revert bs. unfold str_encode. induction s as [|c s IH]; intros bs Hs Ht.
  - injection Hs as <-. exact Ht.
  - cbn [app]. fold str_encode in *.
    destruct (utf8_char c) as [b|]; [|discriminate].
    destruct (str_encode s) as [r|] eqn:Er; [|discriminate].
    injection Hs as <-. unfold str_encode in IH. fold str_encode in IH.
    rewrite (IH r eq_refl Ht). now rewrite <- app_assoc.
Qed.

(** With a password shorter than 64 bytes, the password followed by
    U+0000 opens the vault as well. *)
Lemma trailing_nul_opens_vault L c p pw text w w2 :
  LibsOk L ->
  str_encode p = Some pw -> (length pw < 64)%nat ->
  str_encode (json_dumps L c) = Some text -> json_loads L text = Some c ->
  p <> p ++ [0]
  /\ encrypt_data L c p w = (Ok (vault_file L pw text w), after_encrypt w)
  /\ decrypt_data L (vault_file L pw text w) (p ++ [0]) w2 = (Ok c, w2).
Proof.
  intros HL Ep Hlen Et Ej. split; [|split].
  - intros H. apply (f_equal length) in H. rewrite length_app in H.
    cbn [length] in H. lia.
  - apply encrypt_data_ok; assumption.
  - apply (decrypt_vault_file L c pw text (p ++ [0]) (pw ++ [x00]) w w2 HL).
    + apply str_encode_app; [exact Ep|reflexivity].
    + exact Ej.
    + apply nul_suffix_same_key, Hlen.
Qed.


(* ===================================================================== *)
(** * Running the monad *)
(* ===================================================================== *)

Lemma bind_ok {A B} (c : M A) (k : A -> M B) w a w' :
  c w = (Ok a, w') -> bind c k w = k a w'.
Proof. intros H. unfold bind. now rewrite H. Qed.

Lemma bind_raise {A B} (c : M A) (k : A -> M B) w e w' :
  c w = (Raise e, w') -> bind c k w = (Raise e, w').
Proof. intros H. unfold bind. now rewrite H. Qed.

(** One step of a computation whose first action evaluates by itself. *)
Ltac mstep :=
  lazymatch goal with
  | |- bind ?c ?k ?w = _ => erewrite (bind_ok c k w) by reflexivity; cbv beta
  end.

(** One step of a computation whose first action is known by [H]. *)
Ltac mstep_with H :=
  lazymatch goal with
  | |- bind ?c ?k ?w = _ => rewrite (bind_ok c k w _ _ H); cbv beta
  end.

(** ** The password generator *)

Lemma repeatM_choice alphabet n : forall w,
  alphabet <> [] ->
  exists s,
    repeatM n (secrets_choice alphabet) w = (Ok s, set_drawn (drawn w + n)%nat w)
    /\ length s = n
    /\ Forall (fun c => In c alphabet) s.
Proof.
  induction n as [|n IH]; intros w Hne.
  - exists []. cbn [repeatM]. unfold ret. split; [|split; [reflexivity|constructor]].
    destruct w. unfold set_drawn. cbn. f_equal. f_equal. lia.
  - set (w1 := set_drawn (S (drawn w)) w).
    destruct (IH w1 Hne) as (s & Hs & Hlen & Hall).
    set (x := nth (N.to_nat (Byte.to_N (entropy w (drawn w))) mod length alphabet)%nat
                alphabet 0).
    exists (x :: s). split; [|split].
    + cbn [repeatM].
      rewrite (bind_ok _ _ w x w1) by reflexivity.
      rewrite (bind_ok _ _ w1 s _ Hs). unfold ret, w1, set_drawn. cbn.
      f_equal. f_equal. lia.
    + cbn [length]. now rewrite Hlen.
    + constructor; [|exact Hall]. apply nth_In.
      apply Nat.mod_upper_bound. destruct alphabet; [contradiction|discriminate].
Qed.

Lemma digits_are_digits : Forall is_digit digits.
Proof. unfold is_digit. vm_compute. repeat constructor; discriminate. Qed.


(** ** Writing the vault file *)

Lemma fs_run_write_file path data fs :
  fs_run (write_file_actions path data) fs = <[path := data]> fs.
Proof.
  unfold fs_run, write_file_actions. cbn [fold_left fs_step].
  rewrite lookup_insert_eq. cbn [default app]. apply insert_insert_eq.
Qed.

Lemma fs_run_write_file_1 path data fs :
  fs_run (take 1 (write_file_actions path data)) fs = <[path := []]> fs.
Proof. reflexivity. Qed.

Lemma fs_run_write_file_ge2 path data fs k :
  (2 <= k)%nat ->
  fs_run (take k (write_file_actions path data)) fs = <[path := data]> fs.
Proof.
  intros Hk. destruct k as [|[|[|k]]]; try lia.
  - unfold fs_run, write_file_actions. cbn [take fold_left fs_step].
    rewrite lookup_insert_eq. cbn [default app]. apply insert_insert_eq.
  - rewrite take_ge by (cbn [length write_file_actions]; lia).
    apply fs_run_write_file.
Qed.

Lemma save_vault_ok L data p pw w :
  LibsOk L -> str_encode p = Some pw ->
  save_vault L data p w =
  (Ok tt,
   set_files
     (<[VAULT_PATH := vault_file L pw (ascii_bytes (json_dumps L data)) w]> (files w))
     (after_encrypt w)).
Proof.
  intros HL Ep. unfold save_vault.
  rewrite (bind_ok _ _ w _ _
             (encrypt_data_ok L data p pw _ w HL Ep (json_text_exists L data HL))).
  unfold run_actions. rewrite fs_run_write_file. reflexivity.
Qed.

Lemma vault_file_not_empty L pw text w : vault_file L pw text w <> [].
Proof.
  unfold vault_file. intros H.
  apply (f_equal Base64.b64decode) in H.
  rewrite Base64Facts.b64decode_b64encode in H.
  change (Base64.b64decode []) with (Some (@nil byte)) in H.
  assert (H' : salt_drawn w ++ token_made L pw text w = []) by congruence.
  apply app_eq_nil in H' as [H' _]. apply (f_equal length) in H'.
  rewrite length_salt_drawn in H'. discriminate.
Qed.


(** ** Dictionaries *)






(** ** Changing one byte of the file *)



(* ===================================================================== *)
(** * The claims *)
(* ===================================================================== *)

(** C1.  Round trip: for contents [c] that [json] serialises faithfully
    and a password [p] that can be encoded, [encrypt_data c p] returns a
    file, and [decrypt_data] on that file with the same password returns
    [c], in whatever world it is run, without reporting anything. *)
Theorem round_trip (L : Libs) (c : pyvalue) (p : pystr) (w : world) :
  LibsOk L -> json_roundtrips L c -> encodable p ->
  exists blob w1,
    encrypt_data L c p w = (Ok blob, w1)
    /\ forall w2, decrypt_data L blob p w2 = (Ok c, w2).
Proof.
  intros HL (text & Et & Ej) (pw & Ep).
  exists (vault_file L pw text w), (after_encrypt w). split.
  - apply encrypt_data_ok; assumption.
  - intros w2.
    exact (decrypt_vault_file L c pw text p pw w w2 HL Ep Ej eq_refl).
Qed.

Lemma round_trip_witness :
  exists blob w1,
    encrypt_data Toy.libs empty_vault Toy.hunter2 Toy.world0 = (Ok blob, w1)
    /\ forall w2, decrypt_data Toy.libs blob Toy.hunter2 w2 = (Ok empty_vault, w2).
Proof.
  exact (round_trip Toy.libs empty_vault Toy.hunter2 Toy.world0
           ToyFacts.libs_ok ToyFacts.empty_vault_roundtrips
           ToyFacts.hunter2_encodable).
Defined.

(** C10.  [decrypt_data] is total at its interface: for every blob and
    every password it returns a value and never raises.  Either the body
    succeeded, the world is unchanged and the value is what [json.loads]
    gave, or the value is [None] and the one failure report was printed;
    a blob that is not base64 (one data character, say) is such a
    failure. *)
Theorem decrypt_data_never_raises (L : Libs) (blob : bytes) (p : pystr) (w : world) :
  (exists v w', decrypt_data L blob p w = (Ok v, w')
                /\ (w' = w \/ (v = PNone /\ w' = failed w)))
  /\ decrypt_data L (bytes_of_string "A") p w = (Ok PNone, failed w).
Proof.
  split.
  - destruct (decrypt_data_total L blob p w) as [[v H]|H].
    + exists v, w. split; [exact H|now left].
    + exists PNone, (failed w). split; [exact H|now right].
  - reflexivity.
Qed.




(** C6, as the code has it.  [derive_key] does not look at the length of
    the salt: whatever the salt, it hands it to PBKDF2 as it is, neither
    cut nor padded, and returns the key; its one error is a password that
    [str.encode] rejects. *)
Theorem derive_key_any_salt (L : Libs) (p : pystr) (salt : bytes) (w : world) :
  derive_key L p salt w =
  match str_encode p with
  | Some pw =>
      (Ok (Base64.urlsafe_b64encode
             (KDF.pbkdf2_hmac (sha256 L) pw salt KDF_ITERATIONS 32)), w)
  | None => (Raise UnicodeEncodeError, w)
  end.
Proof.
  destruct (str_encode p) as [pw|] eqn:E.
  - apply derive_key_ok. exact E.
  - apply derive_key_unencodable. exact E.
Qed.

(** C6 as stated fails: with a salt of three bytes [derive_key] returns a
    key and raises nothing. *)
Lemma short_salt_is_accepted :
  length [x01; x02; x03] <> 16%nat
  /\ exists key,
       derive_key Toy.libs Toy.hunter2 [x01; x02; x03] Toy.world0
       = (Ok key, Toy.world0).
Proof.
  split; [discriminate|].
  eexists. apply (derive_key_ok Toy.libs Toy.hunter2 (bytes_of_string "hunter2")).
  vm_compute. reflexivity.
Qed.

(** C9.  For a positive length [n], [generate_password] with digits as the
    only class returns a string of exactly [n] characters, each of them a
    digit; with no class selected it prints its complaint and returns
    [None], whatever the length. *)
Theorem generate_respects_alphabet (n : Z) (w : world) :
  (0 < n)%Z ->
  (exists s w',
      generate_password n false false false true w = (Ok (PStr s), w')
      /\ length s = Z.to_nat n
      /\ Forall is_digit s)
  /\ (forall m w0,
        generate_password m false false false false w0
        = (Ok PNone, set_console (console w0 ++ [EMPTY_ALPHABET]) w0)).
Proof.
  intros _. split.
  - destruct (repeatM_choice digits (Z.to_nat n) w) as (s & Hs & Hlen & Hall);
      [discriminate|].
    exists s, (set_drawn (drawn w + Z.to_nat n)%nat w). split; [|split].
    + unfold generate_password.
      change (bool_decide ([] ++ [] ++ digits ++ [] = [])) with false.
      cbv iota. change ([] ++ [] ++ digits ++ []) with digits.
      rewrite (bind_ok _ _ w s _ Hs). reflexivity.
    + exact Hlen.
    + rewrite List.Forall_forall in *. intros c Hc.
      pose proof digits_are_digits as D. rewrite List.Forall_forall in D.
      apply D, Hall, Hc.
  - intros m w0. reflexivity.
Qed.

Lemma generate_respects_alphabet_witness :
  (exists s w',
      generate_password 12 false false false true Toy.world0 = (Ok (PStr s), w')
      /\ length s = Z.to_nat 12
      /\ Forall is_digit s)
  /\ (forall m w0,
        generate_password m false false false false w0
        = (Ok PNone, set_console (console w0 ++ [EMPTY_ALPHABET]) w0)).
Proof. apply (generate_respects_alphabet 12 Toy.world0). lia. Defined.

(** C4, as the code has it.  [save_vault] encrypts the contents and writes
    the container into the live vault file in place: it opens the vault
    path for writing, which empties the file, then writes the bytes, then
    closes; no temporary file and no rename take part.  When it returns
    the vault file holds exactly the new container.  Interrupted before
    the first file action the disk is as it was; interrupted after the
    first, the vault file is empty; after the second it is complete. *)
Theorem save_vault_writes_in_place (L : Libs) (data : pyvalue) (p : pystr) (w : world) :
  LibsOk L -> encodable p ->
  exists blob w1,
    encrypt_data L data p w = (Ok blob, w1)
    /\ save_vault L data p w = (Ok tt, set_files (<[VAULT_PATH := blob]> (files w)) w1)
    /\ write_file_actions VAULT_PATH blob
       = [FsOpenWB VAULT_PATH; FsWrite VAULT_PATH blob; FsClose VAULT_PATH]
    /\ save_vault_interrupted L 0 data p w = files w
    /\ save_vault_interrupted L 1 data p w = <[VAULT_PATH := []]> (files w)
    /\ (forall k, (2 <= k)%nat ->
          save_vault_interrupted L k data p w = <[VAULT_PATH := blob]> (files w)).
Proof.
  intros HL (pw & Ep).
  pose proof (encrypt_data_ok L data p pw _ w HL Ep (json_text_exists L data HL)) as E.
  eexists _, _. split; [exact E|].
  split; [now apply save_vault_ok|].
  split; [reflexivity|].
  unfold save_vault_interrupted. rewrite E.
  split; [reflexivity|]. split; [reflexivity|].
  intros k Hk. now apply fs_run_write_file_ge2.
Qed.

Lemma save_vault_writes_in_place_witness :
  exists blob w1,
    encrypt_data Toy.libs empty_vault Toy.hunter2 Toy.world1 = (Ok blob, w1)
    /\ save_vault Toy.libs empty_vault Toy.hunter2 Toy.world1
       = (Ok tt, set_files (<[VAULT_PATH := blob]> (files Toy.world1)) w1)
    /\ write_file_actions VAULT_PATH blob
       = [FsOpenWB VAULT_PATH; FsWrite VAULT_PATH blob; FsClose VAULT_PATH]
    /\ save_vault_interrupted Toy.libs 0 empty_vault Toy.hunter2 Toy.world1
       = files Toy.world1
    /\ save_vault_interrupted Toy.libs 1 empty_vault Toy.hunter2 Toy.world1
       = <[VAULT_PATH := []]> (files Toy.world1)
    /\ (forall k, (2 <= k)%nat ->
          save_vault_interrupted Toy.libs k empty_vault Toy.hunter2 Toy.world1
          = <[VAULT_PATH := blob]> (files Toy.world1)).
Proof.
  exact (save_vault_writes_in_place Toy.libs empty_vault Toy.hunter2 Toy.world1
           ToyFacts.libs_ok ToyFacts.hunter2_encodable).
Defined.

(** C4 as stated fails: with a vault on disk, a [save_vault] interrupted
    after its first file action leaves the vault file empty: neither the
    previous container nor the new one. *)
Lemma interrupted_save_leaves_empty_vault :
  exists blob w1,
    encrypt_data Toy.libs empty_vault Toy.hunter2 Toy.world1 = (Ok blob, w1)
    /\ files Toy.world1 !! VAULT_PATH = Some Toy.previous_vault
    /\ save_vault_interrupted Toy.libs 1 empty_vault Toy.hunter2 Toy.world1
         !! VAULT_PATH = Some []
    /\ [] <> Toy.previous_vault
    /\ [] <> blob.
Proof.
  pose proof (encrypt_data_ok Toy.libs empty_vault Toy.hunter2
                (bytes_of_string "hunter2") _ Toy.world1 ToyFacts.libs_ok
                eq_refl (json_text_exists Toy.libs empty_vault ToyFacts.libs_ok)) as E.
  eexists _, _. split; [exact E|].
  split; [reflexivity|].
  split.
  - unfold save_vault_interrupted. rewrite E.
    rewrite fs_run_write_file_1. apply lookup_insert_eq.
  - split; [discriminate|].
    intros H. symmetry in H. revert H. apply vault_file_not_empty.
Qed.





(** C3, as the code has it.  When the key derived from [p2] under the
    stored salt differs from the key derived from [p1], and Fernet rejects
    a token under any key but its own, [decrypt_data] on a file made with
    [p1] fails with [p2]: it returns [None] and prints the one failure
    report.  That report and that result are the only failure
    [decrypt_data] has, whatever the blob and whatever the cause. *)
Theorem wrong_password_rejected (L : Libs) (c : pyvalue) (p1 p2 : pystr) (w : world) :
  LibsOk L -> rejects_other_keys L -> encodable p1 ->
  (forall pw1 pw2,
      str_encode p1 = Some pw1 -> str_encode p2 = Some pw2 ->
      raw_key L pw1 (salt_drawn w) <> raw_key L pw2 (salt_drawn w)) ->
  exists blob w1,
    encrypt_data L c p1 w = (Ok blob, w1)
    /\ (forall w2, decrypt_data L blob p2 w2 = (Ok PNone, failed w2))
    /\ (forall blob' p' w',
          (exists v, decrypt_data L blob' p' w' = (Ok v, w'))
          \/ decrypt_data L blob' p' w' = (Ok PNone, failed w')).
Proof.
  intros HL Hrej (pw1 & Ep1) Hkeys.
  set (text := ascii_bytes (json_dumps L c)).
  exists (vault_file L pw1 text w), (after_encrypt w). split; [|split].
  - apply encrypt_data_ok; [assumption|assumption|].
    apply json_text_exists, HL.
  - intros w2. rewrite decrypt_data_spec by assumption.
    unfold decrypt_outcome, vault_file.
    rewrite Base64Facts.b64decode_b64encode.
    destruct (str_encode p2) as [pw2|] eqn:Ep2; [|reflexivity].
    rewrite take_app_length' by (symmetry; apply length_salt_drawn).
    rewrite drop_app_length' by (symmetry; apply length_salt_drawn).
    unfold token_made. rewrite Hrej; [reflexivity| | |].
    + apply length_raw_key, HL.
    + apply length_raw_key, HL.
    + apply Hkeys; [exact Ep1|reflexivity].
  - intros blob' p' w'. apply decrypt_data_total.
Qed.

Lemma wrong_password_rejected_witness :
  exists blob w1,
    encrypt_data Toy.libs empty_vault Toy.hunter2 Toy.world0 = (Ok blob, w1)
    /\ (forall w2, decrypt_data Toy.libs blob Toy.hunter3 w2 = (Ok PNone, failed w2))
    /\ (forall blob' p' w',
          (exists v, decrypt_data Toy.libs blob' p' w' = (Ok v, w'))
          \/ decrypt_data Toy.libs blob' p' w' = (Ok PNone, failed w')).
Proof.
  apply (wrong_password_rejected Toy.libs empty_vault Toy.hunter2 Toy.hunter3
           Toy.world0 ToyFacts.libs_ok ToyFacts.libs_rejects_other_keys
           ToyFacts.hunter2_encodable).
  intros pw1 pw2 E1 E2.
  change (str_encode Toy.hunter2) with (Some (bytes_of_string "hunter2")) in E1.
  change (str_encode Toy.hunter3) with (Some (bytes_of_string "hunter3")) in E2.
  injection E1 as <-. injection E2 as <-.
  rewrite (ToyFacts.toy_raw_key (bytes_of_string "hunter2") (salt_drawn Toy.world0))
    by (vm_compute; lia || reflexivity).
  rewrite (ToyFacts.toy_raw_key (bytes_of_string "hunter3") (salt_drawn Toy.world0))
    by (vm_compute; lia || reflexivity).
  exact ToyFacts.hunter_keys_differ.
Defined.

(** C3 as stated fails: "hunter2" and "hunter2" followed by U+0000 are two
    distinct passwords, yet a vault encrypted with the first is decrypted
    by the second, because HMAC pads both to the same key block. *)
Lemma nul_suffixed_password_opens_vault :
  Toy.hunter2 <> Toy.hunter2_nul
  /\ exists blob w1,
       encrypt_data Toy.libs empty_vault Toy.hunter2 Toy.world0 = (Ok blob, w1)
       /\ decrypt_data Toy.libs blob Toy.hunter2_nul w1 = (Ok empty_vault, w1).
Proof.
  destruct (trailing_nul_opens_vault Toy.libs empty_vault Toy.hunter2
              (bytes_of_string "hunter2")
              (ascii_bytes (Toy.toy_dumps empty_vault)) Toy.world0
              (after_encrypt Toy.world0) ToyFacts.libs_ok)
    as (Hne & He & Hd).
  - vm_compute. reflexivity.
  - vm_compute. lia.
  - vm_compute. reflexivity.
  - vm_compute. reflexivity.
  - split; [exact Hne|]. eexists _, _. split; [exact He|exact Hd].
Qed.




(* ===================================================================== *)
(** * Further properties of the vault functions *)
(* ===================================================================== *)

Lemma str_encode_unique s a b :
  str_encode s = Some a -> str_encode s = Some b -> a = b.
Proof. congruence. Qed.

Lemma load_vault_reads L p w blob :
  files w !! VAULT_PATH = Some blob ->
  load_vault L p w = decrypt_data L blob p w.
Proof.
  intros H. unfold load_vault.
  rewrite (bind_ok (os_path_exists VAULT_PATH) _ w true w).
  - cbv beta iota. rewrite (bind_ok (read_file VAULT_PATH) _ w blob w).
    + reflexivity.
    + unfold read_file. now rewrite H.
  - unfold os_path_exists. rewrite H.
    now rewrite bool_decide_eq_true_2 by (now exists blob).
Qed.


Lemma initialize_vault_existing L a w :
  is_Some (files w !! VAULT_PATH) ->
  initialize_vault L a w = (Ok tt, set_console (console w ++ [VAULT_EXISTS]) w).
Proof.
  intros H. unfold initialize_vault.
  rewrite (bind_ok (os_path_exists VAULT_PATH) _ w true w).
  - reflexivity.
  - unfold os_path_exists. now rewrite bool_decide_eq_true_2.
Qed.

Lemma initialize_vault_absent L a w :
  files w !! VAULT_PATH = None ->
  initialize_vault L a w =
  (let w0 := set_console (console w ++ [WELCOME]) w in
   if negb (pystr_eqb (ans_master a) (ans_confirm a)) then
     console_print PASSWORDS_DIFFER w0
   else if bool_decide (ans_master a = []) then
     console_print PASSWORD_EMPTY w0
   else
     (encrypted_vault <-- encrypt_data L empty_vault (ans_master a) ;;
      run_actions (write_file_actions VAULT_PATH encrypted_vault) ;;;
      console_print VAULT_INITIALIZED) w0).
Proof.
  intros H. unfold initialize_vault.
  rewrite (bind_ok (os_path_exists VAULT_PATH) _ w false w).
  - cbv beta iota zeta. mstep.
    destruct (negb (pystr_eqb (ans_master a) (ans_confirm a))); [reflexivity|].
    destruct (bool_decide (ans_master a = [])); reflexivity.
  - unfold os_path_exists. rewrite H.
    now rewrite bool_decide_eq_false_2 by (intros [x Hx]; discriminate).
Qed.

(** The world [initialize_vault] leaves when it creates the vault. *)
Lemma initialize_vault_creates L a pw text w :
  LibsOk L ->
  files w !! VAULT_PATH = None ->
  ans_master a = ans_confirm a -> ans_master a <> [] ->
  str_encode (ans_master a) = Some pw ->
  str_encode (json_dumps L empty_vault) = Some text ->
  let w0 := set_console (console w ++ [WELCOME]) w in
  initialize_vault L a w =
  (Ok tt,
   set_console (console w ++ [WELCOME; VAULT_INITIALIZED])
     (set_files (<[VAULT_PATH := vault_file L pw text w0]> (files w))
        (after_encrypt w))).
Proof.
  intros HL Hnone Hsame Hne Ep Et w0.
  rewrite initialize_vault_absent by assumption. cbv zeta. fold w0.
  unfold pystr_eqb. rewrite bool_decide_eq_true_2 by assumption.
  rewrite bool_decide_eq_false_2 by assumption. cbv iota. cbn [negb].
  rewrite (bind_ok _ _ w0 _ _ (encrypt_data_ok L empty_vault _ pw text w0 HL Ep Et)).
  unfold run_actions at 1.
  rewrite (bind_ok _ _ (after_encrypt w0) tt
             (set_files (fs_run (write_file_actions VAULT_PATH (vault_file L pw text w0))
                           (files (after_encrypt w0))) (after_encrypt w0)) eq_refl).
  rewrite fs_run_write_file. unfold console_print, w0, set_console, set_files,
    after_encrypt, set_drawn. cbn [entropy drawn clock files console clipboard].
  rewrite <- app_assoc. reflexivity.
Qed.

(** X1.  [initialize_vault] never replaces a vault: when a vault file is
    there it prints its warning and returns, leaving the file system and
    the random source untouched, without reading a password. *)
Theorem init_keeps_existing_vault (L : Libs) (a : init_answers) (w : world) :
  is_Some (files w !! VAULT_PATH) ->
  exists w',
    initialize_vault L a w = (Ok tt, w')
    /\ files w' = files w
    /\ drawn w' = drawn w
    /\ console w' = console w ++ [VAULT_EXISTS].
Proof.
  intros H. eexists. split; [now apply initialize_vault_existing|].
  repeat split.
Qed.

Lemma init_keeps_existing_vault_witness :
  exists w',
    initialize_vault Toy.libs ToyMore.init_hunter2 Toy.world1 = (Ok tt, w')
    /\ files w' = files Toy.world1
    /\ drawn w' = drawn Toy.world1
    /\ console w' = console Toy.world1 ++ [VAULT_EXISTS].
Proof.
  apply (init_keeps_existing_vault Toy.libs ToyMore.init_hunter2 Toy.world1).
  exists Toy.previous_vault. reflexivity.
Defined.

(** X2.  With no vault on disk, [initialize_vault] creates none when the
    two passwords typed differ or the password is empty: it prints the
    matching error and leaves the file system and the random source as
    they were.  The comparison comes first: an empty password with a
    different confirmation is reported as a mismatch. *)
Theorem init_rejects_bad_passwords (L : Libs) (a : init_answers) (w : world) :
  files w !! VAULT_PATH = None ->
  ans_master a <> ans_confirm a \/ ans_master a = [] ->
  exists w',
    initialize_vault L a w = (Ok tt, w')
    /\ files w' = files w
    /\ drawn w' = drawn w
    /\ console w' = console w ++ [WELCOME;
                                   if bool_decide (ans_master a = ans_confirm a)
                                   then PASSWORD_EMPTY else PASSWORDS_DIFFER].
Proof.
  intros Hnone Hbad. rewrite initialize_vault_absent by assumption. cbv zeta.
  unfold pystr_eqb.
  destruct (bool_decide (ans_master a = ans_confirm a)) eqn:Es; cbn [negb].
  - destruct Hbad as [Hd|He].
    + apply bool_decide_eq_true_1 in Es. contradiction.
    + rewrite bool_decide_eq_true_2 by assumption.
      eexists. split; [reflexivity|]. cbn. rewrite <- app_assoc. repeat split.
  - eexists. split; [reflexivity|]. cbn. rewrite <- app_assoc. repeat split.
Qed.

Lemma init_rejects_bad_passwords_witness :
  exists w',
    initialize_vault Toy.libs ToyMore.init_mismatch Toy.world0 = (Ok tt, w')
    /\ files w' = files Toy.world0
    /\ drawn w' = drawn Toy.world0
    /\ console w' = console Toy.world0
                    ++ [WELCOME;
                        if bool_decide (ans_master ToyMore.init_mismatch
                                        = ans_confirm ToyMore.init_mismatch)
                        then PASSWORD_EMPTY else PASSWORDS_DIFFER].
Proof.
  apply (init_rejects_bad_passwords Toy.libs ToyMore.init_mismatch Toy.world0).
  - reflexivity.
  - left. discriminate.
Defined.

(** X3.  With no vault on disk and the same non-empty, encodable password
    typed twice, [initialize_vault] creates the vault file; [load_vault]
    with that password then returns the empty vault, and [login] returns
    the application object holding it. *)
Theorem init_then_login (L : Libs) (a : init_answers) (w : world) :
  LibsOk L -> json_roundtrips L empty_vault ->
  files w !! VAULT_PATH = None ->
  ans_master a = ans_confirm a -> ans_master a <> [] ->
  encodable (ans_master a) ->
  exists w1,
    initialize_vault L a w = (Ok tt, w1)
    /\ is_Some (files w1 !! VAULT_PATH)
    /\ load_vault L (ans_master a) w1 = (Ok empty_vault, w1)
    /\ login L (ans_master a) w1
       = (Ok {| master_password := ans_master a; vault_data := empty_vault |}, w1).
Proof.
  intros HL (text & Et & Ej) Hnone Hsame Hne (pw & Ep).
  set (w0 := set_console (console w ++ [WELCOME]) w).
  set (blob := vault_file L pw text w0).
  set (w1 := set_console (console w ++ [WELCOME; VAULT_INITIALIZED])
               (set_files (<[VAULT_PATH := blob]> (files w)) (after_encrypt w))).
  assert (Hfile : files w1 !! VAULT_PATH = Some blob) by apply lookup_insert_eq.
  assert (Hload : load_vault L (ans_master a) w1 = (Ok empty_vault, w1)).
  { rewrite (load_vault_reads L _ w1 blob Hfile).
    exact (decrypt_vault_file L empty_vault pw text (ans_master a) pw w0 w1
             HL Ep Ej eq_refl). }
  exists w1. split; [|split; [|split]].
  - exact (initialize_vault_creates L a pw text w HL Hnone Hsame Hne Ep Et).
  - rewrite Hfile. now exists blob.
  - exact Hload.
  - unfold login.
    rewrite (bind_ok (os_path_exists VAULT_PATH) _ w1 true w1).
    + cbv beta iota. cbn [negb]. rewrite (bind_ok _ _ w1 _ _ Hload). reflexivity.
    + unfold os_path_exists. rewrite Hfile.
      now rewrite bool_decide_eq_true_2 by (now exists blob).
Qed.

Lemma init_then_login_witness :
  exists w1,
    initialize_vault Toy.libs ToyMore.init_hunter2 Toy.world0 = (Ok tt, w1)
    /\ is_Some (files w1 !! VAULT_PATH)
    /\ load_vault Toy.libs (ans_master ToyMore.init_hunter2) w1 = (Ok empty_vault, w1)
    /\ login Toy.libs (ans_master ToyMore.init_hunter2) w1
       = (Ok {| master_password := ans_master ToyMore.init_hunter2;
                vault_data := empty_vault |}, w1).
Proof.
  apply (init_then_login Toy.libs ToyMore.init_hunter2 Toy.world0
           ToyFacts.libs_ok ToyFacts.empty_vault_roundtrips).
  - reflexivity.
  - reflexivity.
  - discriminate.
  - exact ToyFacts.hunter2_encodable.
Defined.


(** X5.  What [save_vault] writes, [load_vault] reads back: after saving
    contents that [json] serialises faithfully under an encodable
    password, loading with the same password returns those contents. *)
Theorem save_then_load (L : Libs) (data : pyvalue) (p : pystr) (w : world) :
  LibsOk L -> json_roundtrips L data -> encodable p ->
  exists w1,
    save_vault L data p w = (Ok tt, w1)
    /\ load_vault L p w1 = (Ok data, w1).
Proof.
  intros HL (text & Et & Ej) (pw & Ep).
  assert (text = ascii_bytes (json_dumps L data)) as ->
    by exact (str_encode_unique _ _ _ Et (json_text_exists L data HL)).
  eexists. split; [exact (save_vault_ok L data p pw w HL Ep)|].
  erewrite load_vault_reads by apply lookup_insert_eq.
  exact (decrypt_vault_file L data pw _ p pw w _ HL Ep Ej eq_refl).
Qed.

Lemma save_then_load_witness :
  exists w1,
    save_vault Toy.libs Toy.example_vault Toy.hunter2 Toy.world1 = (Ok tt, w1)
    /\ load_vault Toy.libs Toy.hunter2 w1 = (Ok Toy.example_vault, w1).
Proof.
  exact (save_then_load Toy.libs Toy.example_vault Toy.hunter2 Toy.world1
           ToyFacts.libs_ok ToyFacts.example_vault_roundtrips
           ToyFacts.hunter2_encodable).
Defined.

(** X6.  A save that cannot encrypt does not touch the vault: with a
    password [str.encode] rejects, [save_vault] raises
    [UnicodeEncodeError] before it opens the file, so the file system is
    as it was. *)
Theorem failed_save_keeps_file (L : Libs) (data : pyvalue) (p : pystr) (w : world) :
  str_encode p = None ->
  exists w1,
    save_vault L data p w = (Raise UnicodeEncodeError, w1)
    /\ files w1 = files w.
Proof.
  intros E. unfold save_vault, encrypt_data.
  eexists. split.
  - apply bind_raise.
    rewrite (bind_ok (os_urandom SALT_SIZE) _ w _ _ eq_refl).
    apply bind_raise. now apply derive_key_unencodable.
  - reflexivity.
Qed.

Lemma failed_save_keeps_file_witness :
  exists w1,
    save_vault Toy.libs empty_vault ToyMore.surrogate_password Toy.world1
    = (Raise UnicodeEncodeError, w1)
    /\ files w1 = files Toy.world1.
Proof.
  apply (failed_save_keeps_file Toy.libs empty_vault ToyMore.surrogate_password
           Toy.world1).
  reflexivity.
Defined.

(* ===================================================================== *)
(** * Further properties of the entry operations *)
(* ===================================================================== *)


Lemma pystr_eqb_neq a b : pystr_eqb a b = false <-> a <> b.
Proof. unfold pystr_eqb. apply bool_decide_eq_false. Qed.































(* ===================================================================== *)
(** * Looking an entry up *)
(* ===================================================================== *)








(* ===================================================================== *)
(** * The password generator, for every choice of classes *)
(* ===================================================================== *)

Lemma alphabet_of_nonempty sym up lo num :
  sym || up || lo || num = true -> alphabet_of sym up lo num <> [].
Proof.
  destruct up; [discriminate|]. destruct lo; [discriminate|].
  destruct num; [discriminate|]. destruct sym; [discriminate|].
  intros H. discriminate H.
Qed.

(** X15.  With at least one class selected, [generate_password] returns a
    string of exactly [length] characters (none when [length] is zero or
    negative), each taken from a class that was selected; it prints
    nothing and leaves the file system alone. *)
Theorem generate_password_selected_classes (n : Z)
  (include_symbols include_uppercase include_lowercase include_numbers : bool)
  (w : world) :
  include_symbols || include_uppercase || include_lowercase || include_numbers = true ->
  exists s w',
    generate_password n include_symbols include_uppercase include_lowercase
      include_numbers w = (Ok (PStr s), w')
    /\ length s = Z.to_nat n
    /\ Forall (fun c =>
                 (In c ascii_uppercase /\ include_uppercase = true)
                 \/ (In c ascii_lowercase /\ include_lowercase = true)
                 \/ (In c digits /\ include_numbers = true)
                 \/ (In c punctuation /\ include_symbols = true)) s
    /\ files w' = files w /\ console w' = console w /\ clipboard w' = clipboard w.
Proof.
  intros Hsel.
  pose proof (alphabet_of_nonempty _ _ _ _ Hsel) as Hne.
  destruct (repeatM_choice
              (alphabet_of include_symbols include_uppercase include_lowercase
                 include_numbers) (Z.to_nat n) w Hne)
    as (s & Hs & Hlen & Hall).
  exists s, (set_drawn (drawn w + Z.to_nat n)%nat w).
  split; [|split; [exact Hlen|split; [|repeat split]]].
  - unfold generate_password.
    change ((if include_uppercase then ascii_uppercase else [])
            ++ (if include_lowercase then ascii_lowercase else [])
            ++ (if include_numbers then digits else [])
            ++ (if include_symbols then punctuation else []))
      with (alphabet_of include_symbols include_uppercase include_lowercase
              include_numbers).
    cbv zeta. rewrite bool_decide_eq_false_2 by exact Hne.
    mstep_with Hs. reflexivity.
  - revert Hall. apply List.Forall_impl. intros c Hc. unfold alphabet_of in Hc.
    rewrite !in_app_iff in Hc.
    destruct Hc as [Hc|[Hc|[Hc|Hc]]].
    + destruct include_uppercase; [|destruct Hc]. left. split; [exact Hc|reflexivity].
    + destruct include_lowercase; [|destruct Hc]. right. left.
      split; [exact Hc|reflexivity].
    + destruct include_numbers; [|destruct Hc]. right. right. left.
      split; [exact Hc|reflexivity].
    + destruct include_symbols; [|destruct Hc]. right. right. right.
      split; [exact Hc|reflexivity].
Qed.

Lemma generate_password_selected_classes_witness :
  exists s w',
    generate_password (-3) false true false true Toy.world0 = (Ok (PStr s), w')
    /\ length s = Z.to_nat (-3)
    /\ Forall (fun c =>
                 (In c ascii_uppercase /\ true = true)
                 \/ (In c ascii_lowercase /\ false = true)
                 \/ (In c digits /\ true = true)
                 \/ (In c punctuation /\ false = true)) s
    /\ files w' = files Toy.world0 /\ console w' = console Toy.world0
    /\ clipboard w' = clipboard Toy.world0.
Proof.
  apply (generate_password_selected_classes (-3) false true false true Toy.world0).
  reflexivity.
Defined.

(* ===================================================================== *)
(** * Resetting the vault and logging in *)
(* ===================================================================== *)

Lemma os_path_exists_true path w :
  is_Some (files w !! path) -> os_path_exists path w = (Ok true, w).
Proof. intros H. unfold os_path_exists. now rewrite bool_decide_eq_true_2. Qed.

Lemma os_path_exists_false path w :
  files w !! path = None -> os_path_exists path w = (Ok false, w).
Proof.
  intros H. unfold os_path_exists. rewrite H.
  now rewrite bool_decide_eq_false_2 by (intros [x Hx]; discriminate).
Qed.

Lemma reset_cleared_no_vault w : files (reset_cleared w) !! VAULT_PATH = None.
Proof. apply lookup_delete_eq. Qed.

(** A confirmed reset deletes the vault file and hands over to
    [initialize_vault], inside the [try]. *)
Lemma reset_vault_confirmed L a w :
  is_Some (files w !! VAULT_PATH) ->
  ans_really a = true -> ans_typed a = str_of "RESET" ->
  reset_vault L a w =
  match initialize_vault L (ans_init a) (reset_cleared w) with
  | (Ok x, w') => (Ok x, w')
  | (Raise e, w') =>
      if is_Exception e
      then console_print (str_of "[bold red]Reset failed: " ++ exn_text e
                          ++ str_of "[/bold red]") w'
      else (Raise e, w')
  end.
Proof.
  intros Hex Hreally Htyped. unfold reset_vault.
  mstep_with (os_path_exists_true VAULT_PATH w Hex). cbn [negb]. cbv iota.
  mstep. rewrite Hreally, Htyped. cbn [negb]. cbv iota.
  change (pystr_eqb (str_of "RESET") (str_of "RESET")) with true. cbn [negb]. cbv iota.
  set (w0 := set_console (console w ++ [RESET_WARNING]) w).
  assert (Hbody : (run_actions [FsRemove VAULT_PATH] ;;;
                   console_print OLD_VAULT_DELETED ;;;
                   initialize_vault L (ans_init a)) w0
                  = initialize_vault L (ans_init a) (reset_cleared w)).
  { mstep. mstep. f_equal.
    unfold reset_cleared, w0, fs_run, set_console, set_files.
    cbn [fold_left fs_step entropy drawn clock files console clipboard].
    rewrite <- app_assoc. reflexivity. }
  unfold try_except_Exception. rewrite Hbody. reflexivity.
Qed.

Lemma encrypt_data_unencodable L c p w :
  str_encode p = None ->
  encrypt_data L c p w = (Raise UnicodeEncodeError, set_drawn (drawn w + SALT_SIZE)%nat w).
Proof.
  intros E. unfold encrypt_data.
  rewrite (bind_ok (os_urandom SALT_SIZE) _ w _ _ eq_refl).
  apply bind_raise. now apply derive_key_unencodable.
Qed.

(** X16.  [reset_vault] changes nothing unless a vault exists and the user
    both answers yes and types RESET exactly, in capitals: in every other
    case the file system and the random source are as they were. *)
Theorem reset_needs_both_confirmations (L : Libs) (a : reset_answers) (w : world) :
  files w !! VAULT_PATH = None
  \/ ans_really a = false
  \/ ans_typed a <> str_of "RESET" ->
  exists w',
    reset_vault L a w = (Ok tt, w')
    /\ files w' = files w
    /\ drawn w' = drawn w.
Proof.
  intros Hcase.
  destruct (files w !! VAULT_PATH) as [blob|] eqn:Hf.
  - assert (Hex : is_Some (files w !! VAULT_PATH)) by (rewrite Hf; now exists blob).
    destruct (ans_really a) eqn:Er.
    + destruct Hcase as [Hc|[Hc|Hc]]; [discriminate|discriminate|].
      apply pystr_eqb_neq in Hc.
      exists (set_console (console w ++ [RESET_WARNING; RESET_NOT_CONFIRMED]) w).
      split; [|split; reflexivity].
      unfold reset_vault.
      mstep_with (os_path_exists_true VAULT_PATH w Hex). cbn [negb]. cbv iota. mstep.
      rewrite Er, Hc. cbn [negb]. cbv iota.
      unfold console_print, set_console.
      cbn [entropy drawn clock files console clipboard].
      rewrite <- app_assoc. reflexivity.
    + exists (set_console (console w ++ [RESET_WARNING; RESET_CANCELLED]) w).
      split; [|split; reflexivity].
      unfold reset_vault.
      mstep_with (os_path_exists_true VAULT_PATH w Hex). cbn [negb]. cbv iota. mstep.
      rewrite Er. cbn [negb]. cbv iota.
      unfold console_print, set_console.
      cbn [entropy drawn clock files console clipboard].
      rewrite <- app_assoc. reflexivity.
  - exists (set_console (console w ++ [NO_VAULT_TO_RESET]) w).
    split; [|split; reflexivity].
    unfold reset_vault.
    mstep_with (os_path_exists_false VAULT_PATH w Hf). reflexivity.
Qed.

Lemma reset_needs_both_confirmations_witness :
  exists w',
    reset_vault Toy.libs ToyMore.reset_no Toy.world1 = (Ok tt, w')
    /\ files w' = files Toy.world1
    /\ drawn w' = drawn Toy.world1.
Proof.
  apply (reset_needs_both_confirmations Toy.libs ToyMore.reset_no Toy.world1).
  right. right. discriminate.
Defined.

(** X17.  A confirmed [reset_vault] with a good new password replaces the
    vault whatever the old file held and without the old master password:
    afterwards [load_vault] with the new password returns the empty
    vault. *)
Theorem reset_then_load (L : Libs) (a : reset_answers) (w : world) :
  LibsOk L -> json_roundtrips L empty_vault ->
  is_Some (files w !! VAULT_PATH) ->
  ans_really a = true -> ans_typed a = str_of "RESET" ->
  ans_master (ans_init a) = ans_confirm (ans_init a) ->
  ans_master (ans_init a) <> [] ->
  encodable (ans_master (ans_init a)) ->
  exists w1,
    reset_vault L a w = (Ok tt, w1)
    /\ load_vault L (ans_master (ans_init a)) w1 = (Ok empty_vault, w1)
    /\ (forall path, path <> VAULT_PATH -> files w1 !! path = files w !! path).
Proof.
  intros HL (text & Et & Ej) Hex Hreally Htyped Hsame Hne (pw & Ep).
  rewrite (reset_vault_confirmed L a w Hex Hreally Htyped).
  rewrite (initialize_vault_creates L (ans_init a) pw text (reset_cleared w) HL
             (reset_cleared_no_vault w) Hsame Hne Ep Et).
  eexists. split; [reflexivity|]. split.
  - erewrite load_vault_reads by apply lookup_insert_eq.
    exact (decrypt_vault_file L empty_vault pw text (ans_master (ans_init a)) pw _ _
             HL Ep Ej eq_refl).
  - intros path Hpath. cbn [files set_console set_files reset_cleared].
    rewrite lookup_insert_ne by congruence. apply lookup_delete_ne. congruence.
Qed.

Lemma reset_then_load_witness :
  exists w1,
    reset_vault Toy.libs ToyMore.reset_yes Toy.world1 = (Ok tt, w1)
    /\ load_vault Toy.libs (ans_master (ans_init ToyMore.reset_yes)) w1
       = (Ok empty_vault, w1)
    /\ (forall path, path <> VAULT_PATH -> files w1 !! path = files Toy.world1 !! path).
Proof.
  apply (reset_then_load Toy.libs ToyMore.reset_yes Toy.world1
           ToyFacts.libs_ok ToyFacts.empty_vault_roundtrips).
  - exists Toy.previous_vault. reflexivity.
  - reflexivity.
  - reflexivity.
  - reflexivity.
  - discriminate.
  - exact ToyFacts.hunter2_encodable.
Defined.

(** X18.  A confirmed [reset_vault] deletes the old vault before the new
    password is asked for: if the two new passwords differ, the password is
    empty, or it cannot be encoded, the function still returns normally and
    no vault file is left. *)
Theorem reset_can_leave_no_vault (L : Libs) (a : reset_answers) (w : world) :
  is_Some (files w !! VAULT_PATH) ->
  ans_really a = true -> ans_typed a = str_of "RESET" ->
  ans_master (ans_init a) <> ans_confirm (ans_init a)
  \/ ans_master (ans_init a) = []
  \/ str_encode (ans_master (ans_init a)) = None ->
  exists w1,
    reset_vault L a w = (Ok tt, w1)
    /\ files w1 = delete VAULT_PATH (files w)
    /\ files w1 !! VAULT_PATH = None.
Proof.
  intros Hex Hreally Htyped Hbad.
  rewrite (reset_vault_confirmed L a w Hex Hreally Htyped).
  rewrite (initialize_vault_absent L (ans_init a) _ (reset_cleared_no_vault w)).
  cbv zeta. unfold pystr_eqb.
  destruct (bool_decide (ans_master (ans_init a) = ans_confirm (ans_init a))) eqn:Es;
    cbn [negb]; cbv iota.
  - destruct (bool_decide (ans_master (ans_init a) = [])) eqn:Ee; cbv iota.
    + eexists. split; [reflexivity|]. split; [reflexivity|]. apply lookup_delete_eq.
    + apply bool_decide_eq_true_1 in Es. apply bool_decide_eq_false_1 in Ee.
      destruct Hbad as [Hb|[Hb|Hb]]; [contradiction|contradiction|].
      rewrite (bind_raise _ _ _ _ _ (encrypt_data_unencodable L empty_vault _ _ Hb)).
      cbn [is_Exception]. cbv iota.
      eexists. split; [reflexivity|]. split; [reflexivity|]. apply lookup_delete_eq.
  - eexists. split; [reflexivity|]. split; [reflexivity|]. apply lookup_delete_eq.
Qed.

Lemma reset_can_leave_no_vault_witness :
  exists w1,
    reset_vault Toy.libs ToyMore.reset_mismatch Toy.world1 = (Ok tt, w1)
    /\ files w1 = delete VAULT_PATH (files Toy.world1)
    /\ files w1 !! VAULT_PATH = None.
Proof.
  apply (reset_can_leave_no_vault Toy.libs ToyMore.reset_mismatch Toy.world1).
  - exists Toy.previous_vault. reflexivity.
  - reflexivity.
  - reflexivity.
  - left. discriminate.
Defined.


(* ===================================================================== *)
(** * Listing the vault *)
(* ===================================================================== *)














(** X21.  [list_entries] tolerates a vault whose accounts are missing or
    empty: when the vault has no 'accounts' key, or the value there is
    empty, it prints that the vault is empty and returns, leaving
    everything else as it was. *)
Theorem list_entries_empty (self : MyPW) (vd : list (pystr * pyvalue)) (w : world) :
  vault_data self = PDict vd ->
  truthy (default (PDict []) (dict_get (str_of "accounts") vd)) = false ->
  list_entries self w = (Ok tt, set_console (console w ++ [VAULT_EMPTY]) w).
Proof.
  intros Hvd Hfalsy. unfold list_entries. rewrite Hvd. unfold dict_get_default.
  mstep. rewrite Hfalsy. reflexivity.
Qed.

Lemma list_entries_empty_witness :
  list_entries Toy.app0 Toy.world1
  = (Ok tt, set_console (console Toy.world1 ++ [VAULT_EMPTY]) Toy.world1).
Proof.
  exact (list_entries_empty Toy.app0 _ Toy.world1 eq_refl eq_refl).
Defined.

(** X22.  The entry commands need the 'accounts' key: on a vault that is a
    dictionary without it, [get_entry] and [delete_entry] raise [KeyError]
    at once and [add_entry] raises it after printing its heading; none of
    them writes the vault file. *)
Theorem entry_commands_need_accounts (L : Libs) (self : MyPW)
  (vd : list (pystr * pyvalue)) (a : add_answers) (service_name : pystr)
  (answer : bool) (w : world) :
  vault_data self = PDict vd ->
  dict_get (str_of "accounts") vd = None ->
  get_entry L answer self service_name w = (Raise KeyError, w)
  /\ delete_entry L answer self service_name w = (Raise KeyError, w)
  /\ add_entry L a self w = (Raise KeyError, set_console (console w ++ [ADD_HEADER]) w).
Proof.
  intros Hvd Hacc.
  assert (Hget : getitem (vault_data self) (str_of "accounts") = Raise KeyError).
  { rewrite Hvd. unfold getitem. now rewrite Hacc. }
  split; [|split].
  - unfold get_entry, lookup_entry. rewrite Hget. reflexivity.
  - unfold delete_entry. rewrite Hget. reflexivity.
  - unfold add_entry. mstep. cbv zeta. rewrite Hget. reflexivity.
Qed.

Lemma entry_commands_need_accounts_witness :
  get_entry Toy.libs true ToyMore.app_bare (str_of "GitHub") Toy.world1
  = (Raise KeyError, Toy.world1)
  /\ delete_entry Toy.libs true ToyMore.app_bare (str_of "GitHub") Toy.world1
     = (Raise KeyError, Toy.world1)
  /\ add_entry Toy.libs Toy.github_answers ToyMore.app_bare Toy.world1
     = (Raise KeyError, set_console (console Toy.world1 ++ [ADD_HEADER]) Toy.world1).
Proof.
  exact (entry_commands_need_accounts Toy.libs ToyMore.app_bare [] Toy.github_answers
           (str_of "GitHub") true Toy.world1 eq_refl eq_refl).
Defined.

(* ===================================================================== *)
(** * The interactive session *)
(* ===================================================================== *)















(* ===================================================================== *)
(** * After an interrupted save *)
(* ===================================================================== *)

Lemma toy_rejects_empty_token key :
  length key = 32%nat -> fernet_decrypt Toy.libs key [] = None.
Proof.
  intros Hlen. cbn [fernet_decrypt Toy.libs]. unfold Toy.toy_decrypt.
  rewrite bool_decide_eq_false_2; [reflexivity|].
  rewrite take_nil. intros H. rewrite <- H in Hlen. discriminate Hlen.
Qed.

(** X25.  A save interrupted between opening the vault file and writing to
    it locks the user out: provided Fernet rejects the empty token, the
    empty file that is left makes [load_vault] report a decryption failure
    and [login] exit, whatever password is typed. *)
Theorem interrupted_save_locks_out (L : Libs) (data : pyvalue) (p typed : pystr)
  (w w' : world) :
  LibsOk L ->
  (forall key, length key = 32%nat -> fernet_decrypt L key [] = None) ->
  encodable p ->
  files w' = save_vault_interrupted L 1 data p w ->
  load_vault L typed w' = (Ok PNone, failed w')
  /\ login L typed w' = (Raise SystemExit, failed w').
Proof.
  intros HL Hempty (pw & Ep) Hfiles.
  assert (Hfile : files w' !! VAULT_PATH = Some []).
  { rewrite Hfiles. unfold save_vault_interrupted.
    rewrite (encrypt_data_ok L data p pw _ w HL Ep (json_text_exists L data HL)).
    rewrite fs_run_write_file_1. apply lookup_insert_eq. }
  assert (Hload : load_vault L typed w' = (Ok PNone, failed w')).
  { rewrite (load_vault_reads L typed w' [] Hfile).
    rewrite decrypt_data_spec by exact HL. unfold decrypt_outcome.
    change (Base64.b64decode []) with (Some (@nil byte)).
    destruct (str_encode typed) as [tpw|]; [|reflexivity].
    rewrite take_nil, drop_nil.
    rewrite (Hempty (raw_key L tpw []) (length_raw_key L tpw [] HL)). reflexivity. }
  split; [exact Hload|].
  unfold login.
  assert (Hex : is_Some (files w' !! VAULT_PATH)) by (rewrite Hfile; now eexists).
  mstep_with (os_path_exists_true VAULT_PATH w' Hex). cbn [negb]. cbv iota.
  mstep_with Hload. reflexivity.
Qed.

Lemma interrupted_save_locks_out_witness :
  load_vault Toy.libs Toy.hunter2
    (set_files (save_vault_interrupted Toy.libs 1 empty_vault Toy.hunter2 Toy.world1)
       Toy.world1)
  = (Ok PNone,
     failed (set_files (save_vault_interrupted Toy.libs 1 empty_vault Toy.hunter2
                          Toy.world1) Toy.world1))
  /\ login Toy.libs Toy.hunter2
       (set_files (save_vault_interrupted Toy.libs 1 empty_vault Toy.hunter2 Toy.world1)
          Toy.world1)
     = (Raise SystemExit,
        failed (set_files (save_vault_interrupted Toy.libs 1 empty_vault Toy.hunter2
                             Toy.world1) Toy.world1)).
Proof.
  exact (interrupted_save_locks_out Toy.libs empty_vault Toy.hunter2 Toy.hunter2
           Toy.world1
           (set_files (save_vault_interrupted Toy.libs 1 empty_vault Toy.hunter2
                         Toy.world1) Toy.world1)
           ToyFacts.libs_ok toy_rejects_empty_token
           ToyFacts.hunter2_encodable eq_refl).
Defined.
